(** * Saga executor, command bus and repositories of sur-ser/patterns

    A shallow embedding of three TypeScript files:
    - [Cqrs]     : the command/query-bus slice (CommandBus, the array-backed
                   InMemoryUserRepository);
    - [Saga]     : the saga slice (UserCreationSaga.addStep / run);
    - [Mediator] : mediator.ts (UserMediator, UserRepository).

    Every method of the source is [async] and is awaited at once by its
    caller, so a call is modelled as a state transformer that ends in an
    [Outcome]: the promise resolved with a value or rejected with the thrown
    error. *)

From stdpp Require Import base gmap list strings.

(** ** JavaScript values shared by the three files *)

(** [new Error(message)] *)
Record Error := mkError { message : string }.

(** A settled promise. *)
Inductive Outcome (A : Type) :=
  | Resolved (a : A)
  | Rejected (e : Error).
Arguments Resolved {A} a.
Arguments Rejected {A} e.

(** ** The command/query-bus slice *)
Module Cqrs.

(** [interface Command { readonly type: string }]; the fields a concrete
    class adds are kept as its payload. *)
Record Command := mkCommand { type : string; payload : list string }.

Definition CreateUserCommand (name email : string) : Command :=
  {| type := "CREATE_USER"; payload := [name; email] |}.

Record User := mkUser { name : string; email : string }.

(** [class InMemoryUserRepository { private users: User[] = [] }] *)
Module InMemoryUserRepository.
Record t := mk { users : list User }.

Definition new : t := {| users := [] |}.

(** [this.users.push(user)] *)
Definition save (user : User) (this : t) : t * Outcome unit :=
  ({| users := users this ++ [user] |}, Resolved tt).

(** [x || null] on a value that is an object or [undefined]: an object
    is truthy, [undefined] becomes [null].  [None] on the left is
    [undefined], on the right [null]. *)
Definition or_null (x : option User) : option User :=
  match x with
  | Some u => Some u
  | None => None
  end.

(** [this.users.find((u) => u.email === email) || null] *)
Definition findByEmail (email' : string) (this : t) : Outcome (option User) :=
  Resolved (or_null (find (λ u, String.eqb (email u) email') (users this))).
End InMemoryUserRepository.

Section Bus.
(** What the handlers act on (repositories, services, the console).  The
    bus and the saga never look inside it, and a handler acts on nothing
    else: it does not register handlers and does not reach a saga's
    arrays. *)
Context {World : Type}.

(** [interface CommandHandler<T> { handle(command: T): Promise<void> }] *)
Record CommandHandler :=
  { handle : Command → World → World * Outcome unit }.

(** The world together with the record of every [handler.handle(command)]
    call made so far, oldest first. *)
Record BusState :=
  { world : World; invoked : list (CommandHandler * Command) }.

(** [private handlers = new Map<string, CommandHandler<any>>()] *)
Record CommandBus := { handlers : gmap string CommandHandler }.

Definition newCommandBus : CommandBus := {| handlers := ∅ |}.

(** [this.handlers.set(commandType, handler)] *)
Definition register (commandType : string) (handler : CommandHandler)
    (this : CommandBus) : CommandBus :=
  {| handlers := <[commandType := handler]> (handlers this) |}.

Definition execute (command : Command) (this : CommandBus)
    (s : BusState) : BusState * Outcome unit :=
  match handlers this !! type command with
  | None =>
      (s, Rejected (mkError ("No handler registered for " +:+ type command)))
  | Some handler =>
      let '(w, r) := handle handler command (world s) in
      ({| world := w; invoked := invoked s ++ [(handler, command)] |}, r)
  end.
End Bus.
Arguments CommandHandler : clear implicits.
Arguments BusState : clear implicits.
Arguments CommandBus : clear implicits.

End Cqrs.

(** ** The saga slice *)
Module Saga.
Import Cqrs.

Definition RollbackUserCreationCommand (userId : string) : Command :=
  {| type := "ROLLBACK_USER_CREATION"; payload := [userId] |}.

(** [{ execute: Command; compensate?: Command }] *)
Record Step := mkStep { execute : Command; compensate : option Command }.

(** A JavaScript array is an object: a variable holds a reference to it,
    and [push] and [reverse] change it in place. *)
Definition loc := positive.

(** The two places of [run] that call [commandBus.execute]. *)
Inductive Site := Forward | Compensation.

(** What [run] does that an observer can see: each call of
    [commandBus.execute] with how it settled, and the [console.error]. *)
Inductive Event :=
  | Dispatch (site : Site) (command : Command) (r : Outcome unit)
  | ConsoleError (text : string) (error : Error).

Section Machine.
Context {World : Type}.

Record State :=
  { bus : BusState World;
    arrays : gmap loc (list Step);
    events : list Event }.

Definition M (A : Type) : Type := State → State * Outcome A.

Definition ret {A} (a : A) : M A := λ s, (s, Resolved a).

Definition bind {A B} (m : M A) (k : A → M B) : M B :=
  λ s, match m s with
       | (s', Resolved a) => k a s'
       | (s', Rejected e) => (s', Rejected e)
       end.

(** [try { body } catch (error) { handler }] *)
Definition try_catch {A} (body : M A) (handler : Error → M A) : M A :=
  λ s, match body s with
       | (s', Resolved a) => (s', Resolved a)
       | (s', Rejected e) => handler e s'
       end.

(** The array a reference points to.  A reference held by the program
    always points to one; a dangling one reads as empty. *)
Definition deref (l : loc) (s : State) : list Step :=
  default [] (arrays s !! l).

Definition update (l : loc) (a : list Step) (s : State) : State :=
  {| bus := bus s; arrays := <[l := a]> (arrays s); events := events s |}.

(** The array literal [[]]: a new array at an unused address. *)
Definition alloc (a : list Step) : M loc :=
  λ s, let l := fresh (dom (arrays s)) in (update l a s, Resolved l).

Definition read (l : loc) : M (list Step) := λ s, (s, Resolved (deref l s)).

(** [array.push(step)] *)
Definition push (l : loc) (step : Step) : M unit :=
  λ s, (update l (deref l s ++ [step]) s, Resolved tt).

(** [array.reverse()]: reverses in place and returns the same array. *)
Definition reverse_in_place (l : loc) : M loc :=
  λ s, (update l (reverse (deref l s)) s, Resolved l).

Definition emit (ev : Event) : M unit :=
  λ s, ({| bus := bus s; arrays := arrays s; events := events s ++ [ev] |},
        Resolved tt).

(** [await commandBus.execute(command)] at a call site of [run]. *)
Definition dispatch (site : Site) (commandBus : CommandBus World)
    (command : Command) : M unit :=
  λ s, let '(b, r) := Cqrs.execute command commandBus (bus s) in
       ({| bus := b; arrays := arrays s;
           events := events s ++ [Dispatch site command r] |}, r).
End Machine.
Arguments State : clear implicits.
Arguments M : clear implicits.

Notation "'let*' x ':=' m 'in' k" := (bind m (λ x, k))
  (at level 10, x name, m at level 100, k at level 200).
Notation "m ';;' k" := (bind m (λ _, k))
  (at level 100, k at level 200, right associativity).

Module UserCreationSaga.
Section Methods.
Context {World : Type}.

(** [private steps: {...}[] = []]: the field holds the array. *)
Record t := mk { steps : loc }.

Definition new : M World t :=
  let* l := alloc [] in ret {| steps := l |}.

Definition addStep (this : t) (execute : Command)
    (compensate : option Command) : M World unit :=
  push (steps this) {| execute := execute; compensate := compensate |}.

(** [for (const step of this.steps) { await commandBus.execute(step.execute);
    executedSteps.push(step); }].  The handlers reach the world only,
    so the array being iterated is the one read when the loop starts. *)
Fixpoint forward_loop (commandBus : CommandBus World) (executedSteps : loc)
    (these : list Step) : M World unit :=
  match these with
  | [] => ret tt
  | step :: rest =>
      dispatch Forward commandBus (execute step) ;;
      push executedSteps step ;;
      forward_loop commandBus executedSteps rest
  end.

(** [for (const step of executedSteps.reverse()) { if (step.compensate)
    { await commandBus.execute(step.compensate); } }] *)
Fixpoint compensation_loop (commandBus : CommandBus World)
    (these : list Step) : M World unit :=
  match these with
  | [] => ret tt
  | step :: rest =>
      match compensate step with
      | Some c => dispatch Compensation commandBus c
      | None => ret tt
      end ;;
      compensation_loop commandBus rest
  end.

Definition run (this : t) (commandBus : CommandBus World) : M World unit :=
  let* executedSteps := alloc [] in
  try_catch
    (let* these := read (steps this) in
     forward_loop commandBus executedSteps these)
    (λ error,
       emit (ConsoleError "Saga step failed, triggering compensation" error) ;;
       let* reversed := reverse_in_place executedSteps in
       let* these := read reversed in
       compensation_loop commandBus these).
End Methods.
End UserCreationSaga.

End Saga.

(** ** mediator.ts *)
Module Mediator.

Record User := mkUser { name : string; email : string }.

Section Colleagues.
(** What a mediator acts on.  For [UserMediator] it is the console. *)
Context {Env : Type}.

(** [interface Mediator { notify(sender: object, event: string): void }] *)
Record Mediator := { notify : User → string → Env → Env * Outcome unit }.

(** The repository's map, the mediator's environment, and the record of
    every [this.mediator.notify(sender, event)] call, oldest first. *)
Record State :=
  { users : gmap string User;
    env : Env;
    notified : list (User * string) }.

Definition call_notify (mediator : Mediator) (sender : User)
    (event : string) (s : State) : State * Outcome unit :=
  let '(e, r) := notify mediator sender event (env s) in
  ({| users := users s; env := e;
      notified := notified s ++ [(sender, event)] |}, r).
End Colleagues.
Arguments Mediator : clear implicits.
Arguments State : clear implicits.

Module UserRepository.
Section Methods.
Context {Env : Type}.

(** [this.users.set(user.email, user); await this.mediator.notify(user,
    "UserCreated")] *)
Definition save (mediator : Mediator Env) (user : User) (s : State Env)
    : State Env * Outcome unit :=
  call_notify mediator user "UserCreated"
    {| users := <[email user := user]> (users s); env := env s;
       notified := notified s |}.

(** [const user = this.users.get(email); if (user) {
    this.users.delete(email); await this.mediator.notify(user,
    "UserDeleted"); }] *)
Definition deleteByEmail (mediator : Mediator Env) (email' : string)
    (s : State Env) : State Env * Outcome unit :=
  match users s !! email' with
  | Some user =>
      call_notify mediator user "UserDeleted"
        {| users := delete email' (users s); env := env s;
           notified := notified s |}
  | None => (s, Resolved tt)
  end.
End Methods.
End UserRepository.

(** The console: the lines printed by [console.log], oldest first. *)
Definition Console := list string.

Module NotificationService.
Definition sendWelcomeEmail (email' : string) (c : Console)
    : Console * Outcome unit :=
  (c ++ ["Sending welcome email to " +:+ email'], Resolved tt).

Definition sendAccountClosureEmail (email' : string) (c : Console)
    : Console * Outcome unit :=
  (c ++ ["Sending account closure email to " +:+ email'], Resolved tt).
End NotificationService.

(** [class UserMediator implements Mediator] *)
Definition UserMediator : Mediator Console :=
  {| notify sender event c :=
       if String.eqb event "UserCreated" then
         NotificationService.sendWelcomeEmail (email sender)
           (c ++ ["Mediator handling UserCreated event."])
       else if String.eqb event "UserDeleted" then
         NotificationService.sendAccountClosureEmail (email sender)
           (c ++ ["Mediator handling UserDeleted event."])
       else (c, Resolved tt) |}.

End Mediator.

(** ** Vocabulary for statements about a run *)
Module Walk.
Import Cqrs Saga.

Section Walk.
Context {World : Type}.

(** The forward actions of [these], dispatched one after the other from
    bus state [b], all succeed: [Some] of the bus state they leave,
    [None] as soon as one is rejected. *)
Fixpoint forwards (commandBus : CommandBus World) (these : list Step)
    (b : BusState World) : option (BusState World) :=
  match these with
  | [] => Some b
  | step :: rest =>
      match Cqrs.execute (execute step) commandBus b with
      | (b1, Resolved _) => forwards commandBus rest b1
      | (_, Rejected _) => None
      end
  end.

(** The same for the compensating actions of [these], in the order of
    the list; a step without one is passed over. *)
Fixpoint compensations (commandBus : CommandBus World) (these : list Step)
    (b : BusState World) : option (BusState World) :=
  match these with
  | [] => Some b
  | step :: rest =>
      match compensate step with
      | None => compensations commandBus rest b
      | Some c =>
          match Cqrs.execute c commandBus b with
          | (b1, Resolved _) => compensations commandBus rest b1
          | (_, Rejected _) => None
          end
      end
  end.
End Walk.

(** The events of forward dispatches that all succeeded. *)
Definition forward_events (these : list Step) : list Event :=
  map (λ step, Dispatch Forward (execute step) (Resolved tt)) these.

(** The compensating actions of the completed steps [done], last
    completed first, without the steps that have none. *)
Definition compensation_commands (done : list Step) : list Command :=
  omap compensate (reverse done).

(** The events of compensation dispatches that all succeeded. *)
Definition compensation_events (cs : list Command) : list Event :=
  map (λ c, Dispatch Compensation c (Resolved tt)) cs.

(** The commands dispatched from the compensation loop, in order. *)
Definition compensation_dispatches (evs : list Event) : list Command :=
  omap (λ ev, match ev with
              | Dispatch Compensation c _ => Some c
              | _ => None
              end) evs.

Definition saga_failed_text : string :=
  "Saga step failed, triggering compensation".
End Walk.

(** ** The dispatcher contract as the specification words it *)
Module Contract.
Import Cqrs.

Inductive DispatchError :=
  | NoHandlerRegistered (kind : string)
  | HandlerFailed (kind : string) (cause : Error).

Inductive Result := Ok | Err (e : DispatchError).

(** "Looks up the handler for [action.kind].  If absent, fails with
    [NoHandlerRegistered(kind)].  If present, invokes it and awaits
    completion; propagates whatever failure the handler raises, wrapped as
    [HandlerFailed(kind, cause)]." *)
Definition execute_as_specified {World : Type} (command : Command)
    (this : CommandBus World) (s : BusState World)
    : BusState World * Result :=
  match handlers this !! type command with
  | None => (s, Err (NoHandlerRegistered (type command)))
  | Some handler =>
      let '(w, r) := handle handler command (world s) in
      ({| world := w; invoked := invoked s ++ [(handler, command)] |},
       match r with
       | Resolved _ => Ok
       | Rejected cause => Err (HandlerFailed (type command) cause)
       end)
  end.

(** How a reading [classify] of thrown errors turns an outcome of the
    code into a result of the contract. *)
Definition as_result (classify : Error → DispatchError) (r : Outcome unit)
    : Result :=
  match r with
  | Resolved _ => Ok
  | Rejected e => Err (classify e)
  end.
End Contract.

(** ** Handlers and commands used in the examples *)
Module Fixtures.
Import Cqrs Saga.

(** The world of the examples: a journal of the kinds the handlers saw. *)
Definition Journal := list string.

(** A handler that notes the command and completes. *)
Definition completing : CommandHandler Journal :=
  {| handle c w := (w ++ [type c], Resolved tt) |}.

(** A handler that notes the command and throws [new Error(text)]. *)
Definition throwing (text : string) : CommandHandler Journal :=
  {| handle c w := (w ++ [type c], Rejected (mkError text)) |}.

Definition Create := CreateUserCommand "John Doe" "john@example.com".
Definition RollbackCreate := RollbackUserCreationCommand "user123".
Definition Charge := mkCommand "CHARGE" ["user123"; "42"].
Definition Refund := mkCommand "REFUND" ["user123"; "42"].
Definition Ship := mkCommand "SHIP" ["user123"].

Definition initial : State Journal :=
  {| bus := {| world := []; invoked := [] |}; arrays := ∅; events := [] |}.

(** [new UserCreationSaga()] followed by three [addStep] calls:
    (Create, RollbackCreate), (Charge, Refund), (Ship, -). *)
Definition three_steps : M Journal UserCreationSaga.t :=
  let* saga := UserCreationSaga.new in
  UserCreationSaga.addStep saga Create (Some RollbackCreate) ;;
  UserCreationSaga.addStep saga Charge (Some Refund) ;;
  UserCreationSaga.addStep saga Ship None ;;
  ret saga.

(** A bus on which the kinds of [ok] have a handler that completes and
    those of [bad] one that throws; a kind in neither has no handler. *)
Definition bus_of (ok bad : list string) : CommandBus Journal :=
  foldr (λ k b, register k (throwing ("boom " +:+ k)) b)
    (foldr (λ k b, register k completing b) newCommandBus ok)
    bad.

(** Every kind of the examples has a handler that completes, except those
    in [bad], whose handler throws. *)
Definition bus_failing (bad : list string) : CommandBus Journal :=
  bus_of [type Create; type RollbackCreate; type Charge; type Refund; type Ship]
    bad.

Definition step_create : Step := mkStep Create (Some RollbackCreate).
Definition step_charge : Step := mkStep Charge (Some Refund).
Definition step_ship : Step := mkStep Ship None.

(** The saga object [three_steps] returns and the state it leaves. *)
Definition built_saga : UserCreationSaga.t := UserCreationSaga.mk 1%positive.
Definition built_state : State Journal := (three_steps initial).1.

(** Build the three-step saga, then run it on the given bus. *)
Definition scenario (commandBus : CommandBus Journal)
    : State Journal * Outcome unit :=
  (let* saga := three_steps in UserCreationSaga.run saga commandBus) initial.

(** Build the three-step saga, run it on a bus whose handlers all complete,
    then call [addStep] once more and look at the steps. *)
Definition add_after_run : State Journal * Outcome (list Step) :=
  (let* saga := three_steps in
   UserCreationSaga.run saga (bus_failing []) ;;
   UserCreationSaga.addStep saga Refund None ;;
   read (UserCreationSaga.steps saga)) initial.
End Fixtures.

(** ** The query side of the bus slice *)
Module Queries.

(** [interface Query { readonly type: string }] *)
Record Query := mkQuery { type : string; payload : list string }.

Definition GetUserByEmailQuery (email : string) : Query :=
  {| type := "GET_USER_BY_EMAIL"; payload := [email] |}.

Section Bus.
(** The world the query handlers act on, and the type of their answers
    ([QueryHandler<any, any>]: one map holds handlers of one answer type
    here). *)
Context {World R : Type}.

(** [interface QueryHandler<T, R> { handle(query: T): Promise<R> }] *)
Record QueryHandler := { handle : Query → World → World * Outcome R }.

(** [private handlers = new Map<string, QueryHandler<any, any>>()] *)
Record QueryBus := { handlers : gmap string QueryHandler }.

Definition newQueryBus : QueryBus := {| handlers := ∅ |}.

(** [this.handlers.set(queryType, handler)] *)
Definition register (queryType : string) (handler : QueryHandler)
    (this : QueryBus) : QueryBus :=
  {| handlers := <[queryType := handler]> (handlers this) |}.

(** [const handler = this.handlers.get(query.type); if (!handler) throw ...;
    return await handler.handle(query)] *)
Definition execute (query : Query) (this : QueryBus) (w : World)
    : World * Outcome R :=
  match handlers this !! type query with
  | None => (w, Rejected (mkError ("No handler registered for " +:+ type query)))
  | Some handler => handle handler query w
  end.
End Bus.
Arguments QueryHandler : clear implicits.
Arguments QueryBus : clear implicits.

End Queries.

(** ** The handlers of the bus slice *)
Module CqrsHandlers.
Import Cqrs.

(** [class CreateUserHandler implements CommandHandler<CreateUserCommand>]:
    the command it is typed for is given by its two fields. *)
Module CreateUserHandler.
(** [const user = new User(command.name, command.email);
    await this.repository.save(user)] *)
Definition handle (name email : string) (repository : InMemoryUserRepository.t)
    : InMemoryUserRepository.t * Outcome unit :=
  InMemoryUserRepository.save (mkUser name email) repository.
End CreateUserHandler.

(** [class GetUserByEmailHandler implements
    QueryHandler<GetUserByEmailQuery, User | null>] *)
Module GetUserByEmailHandler.
(** [return await this.repository.findByEmail(query.email)] *)
Definition handle (email : string) (repository : InMemoryUserRepository.t)
    : InMemoryUserRepository.t * Outcome (option User) :=
  (repository, InMemoryUserRepository.findByEmail email repository).
End GetUserByEmailHandler.

(** A handler stored in the bus is [CommandHandler<any>].  [h] stands for a
    [CreateUserHandler] when it does on every [CreateUserCommand] what
    [CreateUserHandler.handle] does; nothing is said of what it does on an
    object of another class. *)
Definition is_CreateUserHandler
    (h : CommandHandler InMemoryUserRepository.t) : Prop :=
  ∀ name email repository,
    Cqrs.handle h (CreateUserCommand name email) repository
    = CreateUserHandler.handle name email repository.

Definition is_GetUserByEmailHandler
    (q : Queries.QueryHandler InMemoryUserRepository.t (option User)) : Prop :=
  ∀ email repository,
    Queries.handle q (Queries.GetUserByEmailQuery email) repository
    = GetUserByEmailHandler.handle email repository.

(** [commandBus.register("CREATE_USER", new CreateUserHandler(repository))] *)
Definition commandBus (h : CommandHandler InMemoryUserRepository.t)
    : CommandBus InMemoryUserRepository.t :=
  register "CREATE_USER" h newCommandBus.

(** [queryBus.register("GET_USER_BY_EMAIL",
    new GetUserByEmailHandler(repository))] *)
Definition queryBus
    (q : Queries.QueryHandler InMemoryUserRepository.t (option User))
    : Queries.QueryBus InMemoryUserRepository.t (option User) :=
  Queries.register "GET_USER_BY_EMAIL" q Queries.newQueryBus.
End CqrsHandlers.

(** ** The repository and the handlers of the saga slice *)
Module SagaHandlers.
Import Cqrs.

(** [class InMemoryUserRepository { private users: Map<string, User> }] *)
Module InMemoryUserRepository.
Record t := mk { users : gmap string User }.

Definition new : t := {| users := ∅ |}.

(** [this.users.set(user.email, user)] *)
Definition save (user : User) (this : t) : t * Outcome unit :=
  ({| users := <[email user := user]> (users this) |}, Resolved tt).

(** [this.users.delete(userId)] *)
Definition delete (userId : string) (this : t) : t * Outcome unit :=
  ({| users := base.delete userId (users this) |}, Resolved tt).
End InMemoryUserRepository.

(** What the handlers of this slice act on: the repository they were built
    with and the console they print to. *)
Record World :=
  { repository : InMemoryUserRepository.t; console : list string }.

Definition console_log (line : string) (w : World) : World :=
  {| repository := repository w; console := console w ++ [line] |}.

Definition on_repository
    (f : InMemoryUserRepository.t → InMemoryUserRepository.t * Outcome unit)
    (w : World) : World * Outcome unit :=
  let '(r, o) := f (repository w) in
  ({| repository := r; console := console w |}, o).

Module CreateUserHandler.
(** [console.log(`Creating user: ${command.name}, ${command.email}`);
    const user = new User(command.name, command.email);
    await this.repository.save(user)] *)
Definition handle (name email : string) (w : World) : World * Outcome unit :=
  on_repository (InMemoryUserRepository.save (mkUser name email))
    (console_log ("Creating user: " +:+ name +:+ ", " +:+ email) w).
End CreateUserHandler.

Module RollbackUserCreationHandler.
(** [console.log(`Rolling back user creation for ID: ${command.userId}`);
    await this.repository.delete(command.userId)] *)
Definition handle (userId : string) (w : World) : World * Outcome unit :=
  on_repository (InMemoryUserRepository.delete userId)
    (console_log ("Rolling back user creation for ID: " +:+ userId) w).
End RollbackUserCreationHandler.

(** A handler stored in the bus is [CommandHandler<any>].  [h] stands for
    the [CreateUserHandler] of this slice when it does on every
    [CreateUserCommand] what [CreateUserHandler.handle] does; nothing is
    said of what it does on an object of another class. *)
Definition is_CreateUserHandler (h : CommandHandler World) : Prop :=
  ∀ name email w,
    Cqrs.handle h (CreateUserCommand name email) w
    = CreateUserHandler.handle name email w.

(** [commandBus.register("CREATE_USER", new CreateUserHandler(repository));
    commandBus.register("ROLLBACK_USER_CREATION",
    new RollbackUserCreationHandler(repository))] *)
Definition commandBus (h r : CommandHandler World) : CommandBus World :=
  register "ROLLBACK_USER_CREATION" r (register "CREATE_USER" h newCommandBus).
End SagaHandlers.

(** ** Vocabulary for the further facts *)
Module Support.
Import Cqrs Saga.

(** [saga.addStep(...)] once for each step of a list, in its order. *)
Fixpoint add_all {World : Type} (this : UserCreationSaga.t)
    (these : list Step) : M World unit :=
  match these with
  | [] => ret tt
  | step :: rest =>
      UserCreationSaga.addStep this (execute step) (compensate step) ;;
      add_all this rest
  end.

(** Every user of the mediator's repository is stored under its email. *)
Definition keyed_by_email (m : gmap string Mediator.User) : Prop :=
  ∀ k u, m !! k = Some u → Mediator.email u = k.

(** The handlers of the bus slice used in the examples.  On an object that
    is not of the class they are typed for they do nothing. *)
Definition createUserHandler
    : CommandHandler Cqrs.InMemoryUserRepository.t :=
  {| Cqrs.handle c repository :=
       match Cqrs.payload c with
       | [name; email] => CqrsHandlers.CreateUserHandler.handle name email repository
       | _ => (repository, Resolved tt)
       end |}.

Definition getUserByEmailHandler
    : Queries.QueryHandler Cqrs.InMemoryUserRepository.t (option User) :=
  {| Queries.handle q repository :=
       match Queries.payload q with
       | [email] => CqrsHandlers.GetUserByEmailHandler.handle email repository
       | _ => (repository, Resolved None)
       end |}.

(** The handlers of the saga slice used in the examples, with the same
    convention. *)
Definition sagaCreateUserHandler : CommandHandler SagaHandlers.World :=
  {| Cqrs.handle c w :=
       match Cqrs.payload c with
       | [name; email] => SagaHandlers.CreateUserHandler.handle name email w
       | _ => (w, Resolved tt)
       end |}.

Definition sagaRollbackHandler : CommandHandler SagaHandlers.World :=
  {| Cqrs.handle c w :=
       match Cqrs.payload c with
       | [userId] => SagaHandlers.RollbackUserCreationHandler.handle userId w
       | _ => (w, Resolved tt)
       end |}.

(** A mediator that notes nothing and throws. *)
Definition failing_mediator : Mediator.Mediator unit :=
  {| Mediator.notify _ _ e := (e, Rejected (mkError "mediator down")) |}.
End Support.

(** * Facts *)

(** ** The command bus *)
Section BusFacts.
Import Cqrs.
Context {World : Type}.
Implicit Types (this : CommandBus World) (h : CommandHandler World)
  (c : Command) (s : BusState World).

Lemma execute_unregistered this c s :
  handlers this !! type c = None →
  execute c this s
  = (s, Rejected (mkError ("No handler registered for " +:+ type c))).
Proof. intros Hnone. unfold execute. by rewrite Hnone. Qed.

Lemma execute_registered this c s h w r :
  handlers this !! type c = Some h →
  handle h c (world s) = (w, r) →
  execute c this s
  = ({| world := w; invoked := invoked s ++ [(h, c)] |}, r).
Proof. intros Hsome Hh. unfold execute. by rewrite Hsome, Hh. Qed.

Lemma execute_resolved_inv this c s s' :
  execute c this s = (s', Resolved tt) →
  ∃ h w, handlers this !! type c = Some h
         ∧ handle h c (world s) = (w, Resolved tt).
Proof.
  unfold execute. destruct (handlers this !! type c) as [h|]; [|done].
  destruct (handle h c (world s)) as [w [[]|e]] eqn:Hh; [|done].
  intros _. by exists h, w.
Qed.

Lemma register_lookup this k h : handlers (register k h this) !! k = Some h.
Proof. unfold register; simpl. apply lookup_insert_eq. Qed.

Lemma register_twice this k h1 h2 :
  register k h2 (register k h1 this) = register k h2 this.
Proof. unfold register; simpl. f_equal. apply insert_insert_eq. Qed.
End BusFacts.

(** C6.  Registering [h1] and then [h2] for one kind leaves the bus in the
    state that registering [h2] alone gives: the kind is bound to [h2]
    only, and [execute] on a command of that kind makes its one call to
    [h2] and settles as [h2] does. *)
Theorem register_last_wins {World : Type} (this : Cqrs.CommandBus World)
    (k : string) (h1 h2 : Cqrs.CommandHandler World) :
  Cqrs.register k h2 (Cqrs.register k h1 this) = Cqrs.register k h2 this
  ∧ Cqrs.handlers (Cqrs.register k h2 (Cqrs.register k h1 this)) !! k = Some h2
  ∧ ∀ (p : list string) (s : Cqrs.BusState World),
      let c := Cqrs.mkCommand k p in
      Cqrs.execute c (Cqrs.register k h2 (Cqrs.register k h1 this)) s
      = ({| Cqrs.world := (Cqrs.handle h2 c (Cqrs.world s)).1;
            Cqrs.invoked := Cqrs.invoked s ++ [(h2, c)] |},
         (Cqrs.handle h2 c (Cqrs.world s)).2).
Proof.
  split; [apply register_twice|].
  split; [apply register_lookup|].
  intros p s c.
  destruct (Cqrs.handle h2 c (Cqrs.world s)) as [w r] eqn:Hh.
  apply execute_registered; [apply register_lookup | exact Hh].
Qed.

(** C5, as the code has it.  Without a handler for the command's kind,
    [execute] is rejected with an error whose message names the kind, the
    world is untouched and no handler is called.  With a handler, [execute]
    calls it once and settles exactly as the handler did: resolved when the
    handler completed, rejected with the very error the handler threw,
    which is passed on as it is.  [execute] resolves exactly when a handler
    is registered and completes. *)
Theorem execute_settles_as_handler {World : Type}
    (this : Cqrs.CommandBus World) (c : Cqrs.Command)
    (s : Cqrs.BusState World) :
  (Cqrs.handlers this !! Cqrs.type c = None →
   Cqrs.execute c this s
   = (s, Rejected (mkError ("No handler registered for " +:+ Cqrs.type c))))
  ∧ (∀ h w r,
       Cqrs.handlers this !! Cqrs.type c = Some h →
       Cqrs.handle h c (Cqrs.world s) = (w, r) →
       Cqrs.execute c this s
       = ({| Cqrs.world := w; Cqrs.invoked := Cqrs.invoked s ++ [(h, c)] |}, r))
  ∧ ((Cqrs.execute c this s).2 = Resolved tt ↔
     ∃ h, Cqrs.handlers this !! Cqrs.type c = Some h
          ∧ (Cqrs.handle h c (Cqrs.world s)).2 = Resolved tt).
Proof.
  split; [apply execute_unregistered|].
  split; [intros h w r; apply execute_registered|].
  split.
  - destruct (Cqrs.execute c this s) as [s' r] eqn:He. simpl. intros ->.
    destruct (execute_resolved_inv _ _ _ _ He) as (h & w & Hh & Hw).
    exists h. by rewrite Hw.
  - intros (h & Hh & Hr).
    destruct (Cqrs.handle h c (Cqrs.world s)) as [w r] eqn:Hw.
    by rewrite (execute_registered _ _ _ _ _ _ Hh Hw).
Qed.

(** The theorem at the sample bus: SHIP has no handler there once the bus
    is emptied, CHARGE has one that throws. *)
Lemma execute_settles_as_handler_witness :
  let this := Cqrs.register "CHARGE" (Fixtures.throwing "card declined")
                Cqrs.newCommandBus in
  let s := {| Cqrs.world := []; Cqrs.invoked := [] |} in
  Cqrs.execute Fixtures.Ship this s
  = (s, Rejected (mkError "No handler registered for SHIP"))
  ∧ Cqrs.execute Fixtures.Charge this s
    = ({| Cqrs.world := ["CHARGE"];
          Cqrs.invoked := [(Fixtures.throwing "card declined", Fixtures.Charge)] |},
       Rejected (mkError "card declined")).
Proof.
  intros this s.
  destruct (execute_settles_as_handler this Fixtures.Ship s) as (Hnone & _ & _).
  destruct (execute_settles_as_handler this Fixtures.Charge s) as (_ & Hsome & _).
  split.
  - apply Hnone. vm_compute. reflexivity.
  - apply (Hsome (Fixtures.throwing "card declined")); vm_compute; reflexivity.
Defined.

(** C5, against the claim: no reading of the thrown errors makes the code
    meet the contract with [HandlerFailed(kind, cause)].  Handlers for two
    different kinds that throw the same error make [execute] fail with the
    same value, which therefore does not carry the kind. *)
Lemma execute_does_not_wrap :
  ¬ ∃ classify : Error → Contract.DispatchError,
      ∀ (this : Cqrs.CommandBus Fixtures.Journal) (c : Cqrs.Command)
        (s : Cqrs.BusState Fixtures.Journal),
        ((Cqrs.execute c this s).1,
         Contract.as_result classify (Cqrs.execute c this s).2)
        = Contract.execute_as_specified c this s.
Proof.
  intros [classify Hall].
  pose (s := {| Cqrs.world := ([] : Fixtures.Journal); Cqrs.invoked := [] |}).
  pose proof (Hall (Cqrs.register "CHARGE" (Fixtures.throwing "declined")
                      Cqrs.newCommandBus) Fixtures.Charge s) as H1.
  pose proof (Hall (Cqrs.register "SHIP" (Fixtures.throwing "declined")
                      Cqrs.newCommandBus) Fixtures.Ship s) as H2.
  vm_compute in H1, H2.
  congruence.
Qed.

(** ** The array-backed repository of the bus slice *)
Section RepositoryFacts.
Import Cqrs Cqrs.InMemoryUserRepository.

Lemma find_first_match (e : string) (l : list User) (u : User) :
  find (λ u, String.eqb (email u) e) l = Some u ↔
  ∃ before after, l = before ++ u :: after ∧ email u = e
                  ∧ ∀ v, v ∈ before → email v ≠ e.
Proof.
  induction l as [|x l IH]; simpl.
  - split; [done|]. intros (before & after & Hl & _).
    by destruct before.
  - destruct (String.eqb_spec (email x) e) as [Heq|Hne].
    + split.
      * intros [= ->]. exists [], l. split; [done|]. split; [done|].
        intros v Hv. by apply elem_of_nil in Hv.
      * intros (before & after & Hl & Hu & Hbefore).
        destruct before as [|y before]; simplify_eq/=; [done|].
        exfalso. apply (Hbefore y); [left|done].
    + rewrite IH. split.
      * intros (before & after & -> & Hu & Hbefore).
        exists (x :: before), after. split; [done|]. split; [done|].
        intros v [->|Hv]%elem_of_cons; [done|by apply Hbefore].
      * intros (before & after & Hl & Hu & Hbefore).
        destruct before as [|y before]; simplify_eq/=.
        exists before, after. split; [done|]. split; [done|].
        intros v Hv. apply Hbefore. by right.
Qed.

Lemma find_no_match (e : string) (l : list User) :
  find (λ u, String.eqb (email u) e) l = None ↔ ∀ v, v ∈ l → email v ≠ e.
Proof.
  induction l as [|x l IH]; simpl.
  - split; [|done]. intros _ v Hv. by apply elem_of_nil in Hv.
  - destruct (String.eqb_spec (email x) e) as [Heq|Hne].
    + split; [done|]. intros Hall. exfalso. apply (Hall x); [left|done].
    + rewrite IH. split.
      * intros Hall v [->|Hv]%elem_of_cons; [done|by apply Hall].
      * intros Hall v Hv. apply Hall. by right.
Qed.
End RepositoryFacts.

(** C10.  [save] appends whatever it is given, so that two users saved one
    after the other are both in the store, also when their emails are
    equal; [findByEmail] never rejects, resolves to the earliest saved user
    with the email asked for, and to [null] exactly when no saved user has
    it. *)
Theorem save_appends_find_takes_earliest
    (repo : Cqrs.InMemoryUserRepository.t) :
  (∀ u, Cqrs.InMemoryUserRepository.save u repo
        = (Cqrs.InMemoryUserRepository.mk
             (Cqrs.InMemoryUserRepository.users repo ++ [u]), Resolved tt))
  ∧ (∀ n1 n2 e,
       Cqrs.InMemoryUserRepository.users
         (Cqrs.InMemoryUserRepository.save (Cqrs.mkUser n2 e)
            (Cqrs.InMemoryUserRepository.save (Cqrs.mkUser n1 e) repo).1).1
       = Cqrs.InMemoryUserRepository.users repo
         ++ [Cqrs.mkUser n1 e; Cqrs.mkUser n2 e])
  ∧ (∀ e u,
       Cqrs.InMemoryUserRepository.findByEmail e repo = Resolved (Some u) ↔
       ∃ before after,
         Cqrs.InMemoryUserRepository.users repo = before ++ u :: after
         ∧ Cqrs.email u = e
         ∧ ∀ v, v ∈ before → Cqrs.email v ≠ e)
  ∧ (∀ e,
       Cqrs.InMemoryUserRepository.findByEmail e repo = Resolved None ↔
       ∀ v, v ∈ Cqrs.InMemoryUserRepository.users repo → Cqrs.email v ≠ e)
  ∧ (∀ e, ∃ found,
       Cqrs.InMemoryUserRepository.findByEmail e repo = Resolved found).
Proof.
  split; [done|].
  split; [intros; simpl; by rewrite <- app_assoc|].
  split; [|split].
  - intros e u. rewrite <- find_first_match.
    unfold Cqrs.InMemoryUserRepository.findByEmail.
    destruct (find _ _); simpl; split; congruence.
  - intros e. rewrite <- find_no_match.
    unfold Cqrs.InMemoryUserRepository.findByEmail.
    destruct (find _ _); simpl; split; congruence.
  - intros e. eexists. reflexivity.
Qed.

(** ** The mediator's repository *)

(** C9.  For an email that is not a key of the map, [deleteByEmail] changes
    nothing at all: the map, the mediator's environment (for [UserMediator]
    the console, so no closure email) and the record of [notify] calls stay
    as they were.  Whatever the email, a call adds at most one notification,
    and when it adds one it is [UserDeleted] for the user that was stored
    under the email and has just been removed. *)
Theorem deleteByEmail_unknown_is_noop {Env : Type}
    (mediator : Mediator.Mediator Env) (e : string) (s : Mediator.State Env) :
  (Mediator.users s !! e = None →
   Mediator.UserRepository.deleteByEmail mediator e s = (s, Resolved tt))
  ∧ (Mediator.notified (Mediator.UserRepository.deleteByEmail mediator e s).1
     = Mediator.notified s
     ∨ ∃ user,
         Mediator.users s !! e = Some user
         ∧ Mediator.users (Mediator.UserRepository.deleteByEmail mediator e s).1
           = delete e (Mediator.users s)
         ∧ Mediator.notified
             (Mediator.UserRepository.deleteByEmail mediator e s).1
           = Mediator.notified s ++ [(user, "UserDeleted")]).
Proof.
  unfold Mediator.UserRepository.deleteByEmail.
  destruct (Mediator.users s !! e) as [user|] eqn:Hu.
  - split; [done|]. right. exists user. split; [done|].
    unfold Mediator.call_notify; simpl.
    by destruct (Mediator.notify mediator user "UserDeleted" (Mediator.env s)).
  - split; [done|]. by left.
Qed.

(** The theorem at the example of mediator.ts with the store still empty:
    deleting jane@example.com prints nothing. *)
Lemma deleteByEmail_unknown_is_noop_witness :
  let s := {| Mediator.users := ∅; Mediator.env := ([] : Mediator.Console);
              Mediator.notified := [] |} in
  Mediator.UserRepository.deleteByEmail Mediator.UserMediator
    "jane@example.com" s = (s, Resolved tt).
Proof.
  intros s.
  apply (deleteByEmail_unknown_is_noop Mediator.UserMediator
           "jane@example.com" s).
  apply lookup_empty.
Defined.

(** ** The saga *)
Section SagaFacts.
Import Cqrs Saga Saga.UserCreationSaga Walk.
Context {World : Type}.
Implicit Types (commandBus : CommandBus World) (s : State World)
  (b : BusState World) (these done later : list Step) (l ex : loc).

Lemma deref_update_eq l a s : deref l (update l a s) = a.
Proof. unfold deref, update; simpl. by rewrite lookup_insert_eq. Qed.

Lemma deref_update_ne l l' a s : l ≠ l' → deref l' (update l a s) = deref l' s.
Proof. intros Hne. unfold deref, update; simpl. by rewrite lookup_insert_ne. Qed.

Lemma deref_lookup l a s : arrays s !! l = Some a → deref l s = a.
Proof. intros Hl. unfold deref. by rewrite Hl. Qed.

(** The address of a new array differs from every address in use. *)
Lemma fresh_not_allocated l a s :
  arrays s !! l = Some a → fresh (dom (arrays s)) ≠ l.
Proof.
  intros Hl Heq. apply (is_fresh (dom (arrays s))).
  rewrite Heq. apply elem_of_dom. by exists a.
Qed.

(** The forward loop when every dispatch succeeds. *)
Lemma forward_loop_succeeds commandBus ex these : ∀ s a b',
  arrays s !! ex = Some a →
  forwards commandBus these (bus s) = Some b' →
  forward_loop commandBus ex these s
  = ({| bus := b'; arrays := <[ex := a ++ these]> (arrays s);
        events := events s ++ forward_events these |}, Resolved tt).
Proof.
  induction these as [|step rest IH]; intros s a b' Ha Hf; simpl in *.
  - injection Hf as <-. unfold ret. destruct s as [b m ev]; simpl in *.
    by rewrite !app_nil_r, insert_id.
  - unfold bind at 1, dispatch.
    destruct (Cqrs.execute (execute step) commandBus (bus s))
      as [b1 [[]|e]] eqn:He; [|done].
    unfold bind at 1, push; simpl.
    erewrite IH; simpl; [|apply lookup_insert_eq|exact Hf].
    unfold deref; simpl. rewrite Ha; simpl.
    by rewrite insert_insert_eq, <- !app_assoc.
Qed.

(** The forward loop when the step after [done] is the first to fail. *)
Lemma forward_loop_fails commandBus ex done sk later : ∀ s a b1 b2 e,
  arrays s !! ex = Some a →
  forwards commandBus done (bus s) = Some b1 →
  Cqrs.execute (execute sk) commandBus b1 = (b2, Rejected e) →
  forward_loop commandBus ex (done ++ sk :: later) s
  = ({| bus := b2; arrays := <[ex := a ++ done]> (arrays s);
        events := events s ++ forward_events done
                  ++ [Dispatch Forward (execute sk) (Rejected e)] |},
     Rejected e).
Proof.
  induction done as [|step rest IH]; intros s a b1 b2 e Ha Hf Hk; simpl in *.
  - injection Hf as <-. unfold bind at 1, dispatch. rewrite Hk.
    by rewrite app_nil_r, insert_id.
  - unfold bind at 1, dispatch.
    destruct (Cqrs.execute (execute step) commandBus (bus s))
      as [b0 [[]|e0]] eqn:He; [|done].
    unfold bind at 1, push; simpl.
    erewrite IH; simpl; [|apply lookup_insert_eq|exact Hf|exact Hk].
    unfold deref; simpl. rewrite Ha; simpl.
    by rewrite insert_insert_eq, <- !app_assoc.
Qed.

(** The compensation loop when every dispatch succeeds. *)
Lemma compensation_loop_succeeds commandBus these : ∀ s b',
  compensations commandBus these (bus s) = Some b' →
  compensation_loop commandBus these s
  = ({| bus := b'; arrays := arrays s;
        events := events s ++ compensation_events (omap compensate these) |},
     Resolved tt).
Proof.
  induction these as [|step rest IH]; intros s b' Hc; simpl in *.
  - injection Hc as <-. unfold ret. destruct s; simpl. by rewrite app_nil_r.
  - unfold bind at 1. destruct (compensate step) as [c|]; simpl.
    + unfold dispatch.
      destruct (Cqrs.execute c commandBus (bus s)) as [b1 [[]|e]]; [|done].
      erewrite IH; simpl; [|exact Hc]. by rewrite <- app_assoc.
    + by apply IH.
Qed.

(** The compensation loop when the compensation of [sj] is the first to
    fail: the loop ends there, with the steps [after] not looked at. *)
Lemma compensation_loop_stops commandBus before sj after c : ∀ s b3 b4 e,
  compensate sj = Some c →
  compensations commandBus before (bus s) = Some b3 →
  Cqrs.execute c commandBus b3 = (b4, Rejected e) →
  compensation_loop commandBus (before ++ sj :: after) s
  = ({| bus := b4; arrays := arrays s;
        events := events s ++ compensation_events (omap compensate before)
                  ++ [Dispatch Compensation c (Rejected e)] |},
     Rejected e).
Proof.
  induction before as [|step rest IH]; intros s b3 b4 e Hj Hc Hx; simpl in *.
  - injection Hc as <-. unfold bind at 1. rewrite Hj. unfold dispatch.
    by rewrite Hx.
  - unfold bind at 1. destruct (compensate step) as [c0|]; simpl.
    + unfold dispatch.
      destruct (Cqrs.execute c0 commandBus (bus s)) as [b1 [[]|e0]]; [|done].
      erewrite IH; simpl; [|exact Hj|exact Hc|exact Hx].
      by rewrite <- app_assoc.
    + by eapply IH.
Qed.

(** Whatever the handlers do, the compensation loop dispatches the
    compensating actions of its list in order and ends at the first one
    that is rejected. *)
Lemma compensation_loop_shape commandBus these : ∀ s,
  ∃ s' r,
    compensation_loop commandBus these s = (s', r)
    ∧ arrays s' = arrays s
    ∧ ((r = Resolved tt
        ∧ events s' = events s
                      ++ compensation_events (omap compensate these)
        ∧ compensations commandBus these (bus s) = Some (bus s'))
       ∨ (∃ pre c post e,
            omap compensate these = pre ++ c :: post
            ∧ events s' = events s ++ compensation_events pre
                          ++ [Dispatch Compensation c (Rejected e)]
            ∧ r = Rejected e
            ∧ compensations commandBus these (bus s) = None)).
Proof.
  induction these as [|step rest IH]; intros s; simpl.
  - exists s, (Resolved tt). split; [done|]. split; [done|]. left.
    by rewrite app_nil_r.
  - unfold bind at 1. destruct (compensate step) as [c|]; simpl.
    + unfold dispatch.
      destruct (Cqrs.execute c commandBus (bus s)) as [b1 [[]|e]].
      * match goal with
        | |- context [compensation_loop _ _ ?s1] =>
            destruct (IH s1) as (s' & r & Hrun & Harr & Hcases)
        end.
        exists s', r. split; [done|]. split; [done|]. simpl in Hcases.
        destruct Hcases as [(-> & Hev & Hc)|(pre & c' & post & e & Hl & Hev & -> & Hc)].
        -- left. split; [done|]. split; [|done].
           by rewrite Hev, <- app_assoc.
        -- right. exists (c :: pre), c', post, e.
           split; [simpl; f_equal; exact Hl|]. split; [|done].
           rewrite Hev; simpl. by rewrite <- app_assoc.
      * eexists _, _. split; [done|]. split; [done|]. right.
        exists [], c, (omap compensate rest), e. done.
    + apply IH.
Qed.

(** The other arrays are out of reach of the forward loop. *)
Lemma forward_loop_frame commandBus ex these l : ∀ s,
  l ≠ ex →
  arrays (forward_loop commandBus ex these s).1 !! l = arrays s !! l.
Proof.
  induction these as [|step rest IH]; intros s Hne; simpl; [done|].
  unfold bind at 1, dispatch.
  destruct (Cqrs.execute (execute step) commandBus (bus s))
    as [b1 [[]|e]]; [|done].
  unfold bind at 1, push. rewrite IH by done. simpl.
  by rewrite lookup_insert_ne.
Qed.

(** The handler calls behind forward dispatches that all succeed: one per
    step, with the step's forward action, in order. *)
Lemma forwards_invoked commandBus these : ∀ b b',
  forwards commandBus these b = Some b' →
  (invoked b').*2 = (invoked b).*2 ++ map execute these.
Proof.
  induction these as [|step rest IH]; intros b b' Hf; simpl in *.
  - injection Hf as <-. by rewrite app_nil_r.
  - destruct (Cqrs.execute (execute step) commandBus b)
      as [b1 [[]|e]] eqn:He; [|done].
    rewrite (IH _ _ Hf).
    destruct (execute_resolved_inv _ _ _ _ He) as (h & w & Hh & Hw).
    rewrite (execute_registered _ _ _ _ _ _ Hh Hw) in He.
    injection He as <-. simpl. by rewrite fmap_app, <- app_assoc.
Qed.

(** A run whose forward dispatches all succeed. *)
Lemma run_succeeds (this : UserCreationSaga.t) commandBus s these b' :
  arrays s !! steps this = Some these →
  forwards commandBus these (bus s) = Some b' →
  run this commandBus s
  = ({| bus := b';
        arrays := <[fresh (dom (arrays s)) := these]> (arrays s);
        events := events s ++ forward_events these |}, Resolved tt).
Proof.
  intros Hthese Hf. unfold run, bind at 1, alloc, try_catch, bind, read.
  rewrite deref_update_ne by (by eapply fresh_not_allocated).
  rewrite (deref_lookup _ _ _ Hthese).
  erewrite forward_loop_succeeds; [|apply lookup_insert_eq|exact Hf].
  simpl. by rewrite insert_insert_eq.
Qed.

(** A run whose step after [done] is the first to fail comes down to the
    compensation loop over [done] reversed, started after the error was
    printed. *)
Lemma run_compensates (this : UserCreationSaga.t) commandBus s done sk later
    b1 b2 e :
  arrays s !! steps this = Some (done ++ sk :: later) →
  forwards commandBus done (bus s) = Some b1 →
  Cqrs.execute (execute sk) commandBus b1 = (b2, Rejected e) →
  run this commandBus s
  = compensation_loop commandBus (reverse done)
      {| bus := b2;
         arrays := <[fresh (dom (arrays s)) := reverse done]> (arrays s);
         events := events s ++ forward_events done
                   ++ [Dispatch Forward (execute sk) (Rejected e);
                       ConsoleError saga_failed_text e] |}.
Proof.
  intros Hthese Hf Hk. unfold run, bind at 1, alloc, try_catch.
  unfold bind at 1, read.
  rewrite deref_update_ne by (by eapply fresh_not_allocated).
  rewrite (deref_lookup _ _ _ Hthese).
  erewrite forward_loop_fails; [|apply lookup_insert_eq|exact Hf|exact Hk].
  unfold bind at 1, emit. unfold bind at 1, reverse_in_place.
  unfold bind at 1, read, update, deref. simpl.
  rewrite !lookup_insert_eq, !insert_insert_eq. simpl.
  by rewrite <- !app_assoc.
Qed.

(** Every array but the one [run] creates is as it was when [run] ends,
    however the run goes. *)
Lemma run_frame (this : UserCreationSaga.t) commandBus s l :
  l ≠ fresh (dom (arrays s)) →
  arrays (run this commandBus s).1 !! l = arrays s !! l.
Proof.
  intros Hne. unfold run, bind at 1, alloc, try_catch.
  unfold bind at 1, read.
  match goal with
  | |- context [forward_loop ?cb ?ex ?th ?s1] =>
      pose proof (forward_loop_frame cb ex th l s1 Hne) as Hfwd;
      destruct (forward_loop cb ex th s1) as [s2 [[]|e]]
  end; simpl in Hfwd.
  - simpl. rewrite Hfwd. by rewrite lookup_insert_ne.
  - unfold bind at 1, emit. unfold bind at 1, reverse_in_place.
    unfold bind at 1, read.
    match goal with
    | |- context [compensation_loop ?cb ?th ?s3] =>
        destruct (compensation_loop_shape cb th s3) as (s' & r & -> & Harr & _)
    end.
    simpl in *. rewrite Harr, lookup_insert_ne by done.
    rewrite Hfwd. by rewrite lookup_insert_ne.
Qed.

Lemma compensation_dispatches_forward these :
  compensation_dispatches (forward_events these) = [].
Proof. by induction these. Qed.

Lemma compensation_dispatches_events (cs : list Command) :
  compensation_dispatches (compensation_events cs) = cs.
Proof. induction cs as [|c cs IH]; [done|]. simpl. f_equal. exact IH. Qed.

Lemma compensation_dispatches_app (evs1 evs2 : list Event) :
  compensation_dispatches (evs1 ++ evs2)
  = compensation_dispatches evs1 ++ compensation_dispatches evs2.
Proof. apply omap_app. Qed.
End SagaFacts.

(** C4.  When every forward dispatch succeeds, [run] resolves; the events of
    the run are the forward dispatches of the steps, one per step and in
    the order of the definition; nothing is dispatched from the
    compensation loop; the handler calls are those of the forward actions.
    For the empty definition nothing is dispatched and no handler runs. *)
Theorem run_dispatches_forward_in_order {World : Type}
    (this : Saga.UserCreationSaga.t) (commandBus : Cqrs.CommandBus World)
    (s : Saga.State World) (these : list Saga.Step)
    (b' : Cqrs.BusState World) :
  Saga.arrays s !! Saga.UserCreationSaga.steps this = Some these →
  Walk.forwards commandBus these (Saga.bus s) = Some b' →
  ∃ s', Saga.UserCreationSaga.run this commandBus s = (s', Resolved tt)
    ∧ Saga.events s' = Saga.events s ++ Walk.forward_events these
    ∧ Walk.compensation_dispatches (Saga.events s')
      = Walk.compensation_dispatches (Saga.events s)
    ∧ (Cqrs.invoked (Saga.bus s')).*2
      = (Cqrs.invoked (Saga.bus s)).*2 ++ map Saga.execute these
    ∧ (these = [] →
       Saga.events s' = Saga.events s ∧ Saga.bus s' = Saga.bus s).
Proof.
  intros Hthese Hf. eexists. split; [by apply run_succeeds|]. simpl.
  split; [done|]. split.
  - by rewrite compensation_dispatches_app, compensation_dispatches_forward,
      app_nil_r.
  - split; [by apply (forwards_invoked commandBus)|].
    intros ->. simpl in *. injection Hf as <-. by rewrite app_nil_r.
Qed.

(** The theorem at the three-step saga on a bus whose handlers all
    complete: Create, Charge, Ship and nothing else. *)
Lemma run_dispatches_forward_in_order_witness :
  ∃ s', Saga.UserCreationSaga.run Fixtures.built_saga (Fixtures.bus_failing [])
          Fixtures.built_state = (s', Resolved tt)
    ∧ Saga.events s'
      = [Saga.Dispatch Saga.Forward Fixtures.Create (Resolved tt);
         Saga.Dispatch Saga.Forward Fixtures.Charge (Resolved tt);
         Saga.Dispatch Saga.Forward Fixtures.Ship (Resolved tt)]
    ∧ Walk.compensation_dispatches (Saga.events s') = [].
Proof.
  destruct (run_dispatches_forward_in_order Fixtures.built_saga
              (Fixtures.bus_failing []) Fixtures.built_state
              [Fixtures.step_create; Fixtures.step_charge; Fixtures.step_ship]
              {| Cqrs.world := ["CREATE_USER"; "CHARGE"; "SHIP"];
                 Cqrs.invoked := [(Fixtures.completing, Fixtures.Create);
                                  (Fixtures.completing, Fixtures.Charge);
                                  (Fixtures.completing, Fixtures.Ship)] |})
    as (s' & Hrun & Hev & Hcomp & _).
  - vm_compute. reflexivity.
  - vm_compute. reflexivity.
  - exists s'. split; [exact Hrun|]. split; [exact Hev|exact Hcomp].
Defined.

(** C8.  [run] does not change the definition: the array behind
    [this.steps] holds the same steps in the same order when [run] ends,
    whether the run resolved or was rejected.  (The saga object was created
    before, so its array exists.) *)
Theorem run_leaves_definition {World : Type}
    (this : Saga.UserCreationSaga.t) (commandBus : Cqrs.CommandBus World)
    (s : Saga.State World) (these : list Saga.Step) :
  Saga.arrays s !! Saga.UserCreationSaga.steps this = Some these →
  Saga.arrays (Saga.UserCreationSaga.run this commandBus s).1
    !! Saga.UserCreationSaga.steps this = Some these.
Proof.
  intros Hthese. rewrite run_frame; [exact Hthese|].
  intros Heq. by eapply fresh_not_allocated.
Qed.

(** The theorem at the three-step saga on the bus whose Ship and Refund
    handlers throw: the run is rejected and the three steps are still
    there. *)
Lemma run_leaves_definition_witness :
  Saga.arrays (Saga.UserCreationSaga.run Fixtures.built_saga
                 (Fixtures.bus_failing ["SHIP"; "REFUND"])
                 Fixtures.built_state).1
    !! Saga.UserCreationSaga.steps Fixtures.built_saga
  = Some [Fixtures.step_create; Fixtures.step_charge; Fixtures.step_ship].
Proof.
  apply run_leaves_definition. vm_compute. reflexivity.
Defined.

(** C3, as the code has it.  When the step after [done] is the first whose
    forward action fails, [run] prints the error and then dispatches the
    compensating actions of [done] from the last completed step back to the
    first, passing over the steps that have none, and stops after the first
    of these dispatches that is rejected: they are all dispatched when none
    is rejected.  Nothing is dispatched for the failing step or the steps
    after it. *)
Theorem compensation_runs_back_to_first_rejection {World : Type}
    (this : Saga.UserCreationSaga.t) (commandBus : Cqrs.CommandBus World)
    (s : Saga.State World) (done : list Saga.Step) (sk : Saga.Step)
    (later : list Saga.Step) (b1 b2 : Cqrs.BusState World) (e : Error) :
  Saga.arrays s !! Saga.UserCreationSaga.steps this
    = Some (done ++ sk :: later) →
  Walk.forwards commandBus done (Saga.bus s) = Some b1 →
  Cqrs.execute (Saga.execute sk) commandBus b1 = (b2, Rejected e) →
  ∃ s' r attempted,
    Saga.UserCreationSaga.run this commandBus s = (s', r)
    ∧ Saga.events s'
      = Saga.events s ++ Walk.forward_events done
        ++ [Saga.Dispatch Saga.Forward (Saga.execute sk) (Rejected e);
            Saga.ConsoleError Walk.saga_failed_text e]
        ++ attempted
    ∧ ((attempted
        = Walk.compensation_events (Walk.compensation_commands done)
        ∧ is_Some (Walk.compensations commandBus (reverse done) b2))
       ∨ (∃ pre c post e',
            Walk.compensation_commands done = pre ++ c :: post
            ∧ attempted
              = Walk.compensation_events pre
                ++ [Saga.Dispatch Saga.Compensation c (Rejected e')]
            ∧ Walk.compensations commandBus (reverse done) b2 = None)).
Proof.
  intros Hthese Hf Hk. rewrite (run_compensates _ _ _ _ _ _ _ _ _ Hthese Hf Hk).
  match goal with
  | |- context [Saga.UserCreationSaga.compensation_loop ?cb ?th ?s3] =>
      destruct (compensation_loop_shape cb th s3)
        as (s' & r & -> & _ & Hcases)
  end.
  simpl in Hcases. exists s', r.
  destruct Hcases as [(_ & Hev & Hc)|(pre & c & post & e' & Hl & Hev & _ & Hc)].
  - eexists. split; [done|]. split; [by rewrite Hev, <- !app_assoc|].
    left. split; [done|]. by rewrite Hc.
  - eexists. split; [done|]. split; [by rewrite Hev, <- !app_assoc|].
    right. by exists pre, c, post, e'.
Qed.

(** The theorem at the three-step saga when Ship fails and the other
    handlers complete: Refund, then RollbackCreate. *)
Lemma compensation_runs_back_to_first_rejection_witness :
  ∃ s' r attempted,
    Saga.UserCreationSaga.run Fixtures.built_saga
      (Fixtures.bus_failing ["SHIP"]) Fixtures.built_state = (s', r)
    ∧ Saga.events s'
      = Saga.events Fixtures.built_state
        ++ Walk.forward_events [Fixtures.step_create; Fixtures.step_charge]
        ++ [Saga.Dispatch Saga.Forward Fixtures.Ship
              (Rejected (mkError "boom SHIP"));
            Saga.ConsoleError Walk.saga_failed_text (mkError "boom SHIP")]
        ++ attempted
    ∧ (attempted
       = Walk.compensation_events [Fixtures.Refund; Fixtures.RollbackCreate]
       ∨ ∃ pre c post e',
           [Fixtures.Refund; Fixtures.RollbackCreate] = pre ++ c :: post
           ∧ attempted
             = Walk.compensation_events pre
               ++ [Saga.Dispatch Saga.Compensation c (Rejected e')]).
Proof.
  destruct (compensation_runs_back_to_first_rejection Fixtures.built_saga
              (Fixtures.bus_failing ["SHIP"]) Fixtures.built_state
              [Fixtures.step_create; Fixtures.step_charge] Fixtures.step_ship []
              {| Cqrs.world := ["CREATE_USER"; "CHARGE"];
                 Cqrs.invoked := [(Fixtures.completing, Fixtures.Create);
                                  (Fixtures.completing, Fixtures.Charge)] |}
              {| Cqrs.world := ["CREATE_USER"; "CHARGE"; "SHIP"];
                 Cqrs.invoked := [(Fixtures.completing, Fixtures.Create);
                                  (Fixtures.completing, Fixtures.Charge);
                                  (Fixtures.throwing "boom SHIP", Fixtures.Ship)] |}
              (mkError "boom SHIP"))
    as (s' & r & attempted & Hrun & Hev & Hcases).
  - vm_compute. reflexivity.
  - vm_compute. reflexivity.
  - vm_compute. reflexivity.
  - exists s', r, attempted. split; [exact Hrun|]. split; [exact Hev|].
    destruct Hcases as [[-> _]|(pre & c & post & e' & Hl & -> & _)].
    + left. reflexivity.
    + right. exists pre, c, post, e'. split; [exact Hl|reflexivity].
Defined.

(** C3, against the claim.  With no handler for Refund and a Ship handler
    that throws, step 2 is the first to fail and the compensation
    dispatches are Refund alone, not Refund and RollbackCreate. *)
Lemma compensation_dispatches_cut_short :
  let commandBus :=
    Fixtures.bus_of ["CREATE_USER"; "ROLLBACK_USER_CREATION"; "CHARGE"]
      ["SHIP"] in
  let s' := (Fixtures.scenario commandBus).1 in
  Saga.events s'
  = [Saga.Dispatch Saga.Forward Fixtures.Create (Resolved tt);
     Saga.Dispatch Saga.Forward Fixtures.Charge (Resolved tt);
     Saga.Dispatch Saga.Forward Fixtures.Ship (Rejected (mkError "boom SHIP"));
     Saga.ConsoleError Walk.saga_failed_text (mkError "boom SHIP");
     Saga.Dispatch Saga.Compensation Fixtures.Refund
       (Rejected (mkError "No handler registered for REFUND"))]
  ∧ Walk.compensation_commands [Fixtures.step_create; Fixtures.step_charge]
    = [Fixtures.Refund; Fixtures.RollbackCreate]
  ∧ Walk.compensation_dispatches (Saga.events s')
    ≠ Walk.compensation_commands [Fixtures.step_create; Fixtures.step_charge].
Proof.
  intros commandBus s'.
  assert (Saga.events s'
          = [Saga.Dispatch Saga.Forward Fixtures.Create (Resolved tt);
             Saga.Dispatch Saga.Forward Fixtures.Charge (Resolved tt);
             Saga.Dispatch Saga.Forward Fixtures.Ship
               (Rejected (mkError "boom SHIP"));
             Saga.ConsoleError Walk.saga_failed_text (mkError "boom SHIP");
             Saga.Dispatch Saga.Compensation Fixtures.Refund
               (Rejected (mkError "No handler registered for REFUND"))])
    as Hev by (vm_compute; reflexivity).
  split; [exact Hev|]. split; [reflexivity|].
  rewrite Hev. vm_compute. discriminate.
Qed.

(** C2, as the code has it.  When the compensation of a completed step
    [sj] is rejected, the walk ends with it: the compensating actions of
    the steps completed after [sj] were dispatched before, nothing is
    dispatched for the steps [earlier] than [sj], and [run] is rejected
    with the error of that compensation. *)
Theorem compensation_failure_ends_walk {World : Type}
    (this : Saga.UserCreationSaga.t) (commandBus : Cqrs.CommandBus World)
    (s : Saga.State World) (earlier : list Saga.Step) (sj : Saga.Step)
    (between : list Saga.Step) (sk : Saga.Step) (later : list Saga.Step)
    (c : Cqrs.Command) (b1 b2 b3 b4 : Cqrs.BusState World) (e e' : Error) :
  Saga.arrays s !! Saga.UserCreationSaga.steps this
    = Some ((earlier ++ sj :: between) ++ sk :: later) →
  Walk.forwards commandBus (earlier ++ sj :: between) (Saga.bus s) = Some b1 →
  Cqrs.execute (Saga.execute sk) commandBus b1 = (b2, Rejected e) →
  Saga.compensate sj = Some c →
  Walk.compensations commandBus (reverse between) b2 = Some b3 →
  Cqrs.execute c commandBus b3 = (b4, Rejected e') →
  ∃ s', Saga.UserCreationSaga.run this commandBus s = (s', Rejected e')
    ∧ Saga.bus s' = b4
    ∧ Saga.events s'
      = Saga.events s ++ Walk.forward_events (earlier ++ sj :: between)
        ++ [Saga.Dispatch Saga.Forward (Saga.execute sk) (Rejected e);
            Saga.ConsoleError Walk.saga_failed_text e]
        ++ Walk.compensation_events (Walk.compensation_commands between)
        ++ [Saga.Dispatch Saga.Compensation c (Rejected e')].
Proof.
  intros Hthese Hf Hk Hj Hc Hx.
  rewrite (run_compensates _ _ _ _ _ _ _ _ _ Hthese Hf Hk).
  rewrite reverse_app, reverse_cons, <- app_assoc. simpl.
  erewrite compensation_loop_stops; [|exact Hj|exact Hc|exact Hx].
  eexists. split; [done|]. split; [done|]. simpl.
  unfold Walk.compensation_commands. by rewrite <- !app_assoc.
Qed.

(** The theorem at the three-step saga when Ship fails and the Refund
    handler throws: RollbackCreate, the compensation of step 0, is not
    dispatched. *)
Lemma compensation_failure_ends_walk_witness :
  ∃ s', Saga.UserCreationSaga.run Fixtures.built_saga
          (Fixtures.bus_failing ["SHIP"; "REFUND"]) Fixtures.built_state
        = (s', Rejected (mkError "boom REFUND"))
    ∧ Saga.events s'
      = [Saga.Dispatch Saga.Forward Fixtures.Create (Resolved tt);
         Saga.Dispatch Saga.Forward Fixtures.Charge (Resolved tt);
         Saga.Dispatch Saga.Forward Fixtures.Ship
           (Rejected (mkError "boom SHIP"));
         Saga.ConsoleError Walk.saga_failed_text (mkError "boom SHIP");
         Saga.Dispatch Saga.Compensation Fixtures.Refund
           (Rejected (mkError "boom REFUND"))].
Proof.
  pose (b1 := {| Cqrs.world := ["CREATE_USER"; "CHARGE"];
                 Cqrs.invoked := [(Fixtures.completing, Fixtures.Create);
                                  (Fixtures.completing, Fixtures.Charge)] |}).
  pose (b2 := {| Cqrs.world := ["CREATE_USER"; "CHARGE"; "SHIP"];
                 Cqrs.invoked := [(Fixtures.completing, Fixtures.Create);
                                  (Fixtures.completing, Fixtures.Charge);
                                  (Fixtures.throwing "boom SHIP", Fixtures.Ship)] |}).
  pose (b4 := {| Cqrs.world := ["CREATE_USER"; "CHARGE"; "SHIP"; "REFUND"];
                 Cqrs.invoked := [(Fixtures.completing, Fixtures.Create);
                                  (Fixtures.completing, Fixtures.Charge);
                                  (Fixtures.throwing "boom SHIP", Fixtures.Ship);
                                  (Fixtures.throwing "boom REFUND", Fixtures.Refund)] |}).
  destruct (compensation_failure_ends_walk Fixtures.built_saga
              (Fixtures.bus_failing ["SHIP"; "REFUND"]) Fixtures.built_state
              [Fixtures.step_create] Fixtures.step_charge [] Fixtures.step_ship []
              Fixtures.Refund b1 b2 b2 b4
              (mkError "boom SHIP") (mkError "boom REFUND"))
    as (s' & Hrun & _ & Hev).
  - vm_compute. reflexivity.
  - vm_compute. reflexivity.
  - vm_compute. reflexivity.
  - reflexivity.
  - reflexivity.
  - vm_compute. reflexivity.
  - exists s'. split; [exact Hrun|exact Hev].
Defined.

(** C2, against the claim.  Ship fails, the walk starts, the Refund handler
    throws: RollbackCreate, the compensation of the earlier step 0, is
    never dispatched, and the run is rejected with Refund's error. *)
Lemma compensation_failure_skips_earlier_steps :
  let r := Fixtures.scenario (Fixtures.bus_failing ["SHIP"; "REFUND"]) in
  Saga.compensate Fixtures.step_create = Some Fixtures.RollbackCreate
  ∧ (Saga.Dispatch Saga.Compensation Fixtures.Refund
       (Rejected (mkError "boom REFUND")) ∈ Saga.events r.1)
  ∧ Walk.compensation_dispatches (Saga.events r.1) = [Fixtures.Refund]
  ∧ (Fixtures.RollbackCreate
     ∉ Walk.compensation_dispatches (Saga.events r.1))
  ∧ r.2 = Rejected (mkError "boom REFUND").
Proof.
  intros r. split; [reflexivity|].
  assert (Saga.events r.1
          = [Saga.Dispatch Saga.Forward Fixtures.Create (Resolved tt);
             Saga.Dispatch Saga.Forward Fixtures.Charge (Resolved tt);
             Saga.Dispatch Saga.Forward Fixtures.Ship
               (Rejected (mkError "boom SHIP"));
             Saga.ConsoleError Walk.saga_failed_text (mkError "boom SHIP");
             Saga.Dispatch Saga.Compensation Fixtures.Refund
               (Rejected (mkError "boom REFUND"))])
    as Hev by (vm_compute; reflexivity).
  rewrite Hev. split; [set_solver|]. split; [reflexivity|].
  split; [|vm_compute; reflexivity].
  change (Fixtures.RollbackCreate ∉ [Fixtures.Refund]).
  intros Hin. apply list_elem_of_singleton in Hin. discriminate Hin.
Qed.

(** C1, as the code has it.  When a forward step fails, [run] prints the
    causing error with [console.error] and walks the compensations.  If
    every compensation dispatch succeeds, [run] resolves, with no value,
    as a run without failure does.  If one is rejected, [run] is rejected
    with the error of that compensation, whose dispatch is the last thing
    the run did. *)
Theorem run_outcome_after_forward_failure {World : Type}
    (this : Saga.UserCreationSaga.t) (commandBus : Cqrs.CommandBus World)
    (s : Saga.State World) (done : list Saga.Step) (sk : Saga.Step)
    (later : list Saga.Step) (b1 b2 : Cqrs.BusState World) (e : Error) :
  Saga.arrays s !! Saga.UserCreationSaga.steps this
    = Some (done ++ sk :: later) →
  Walk.forwards commandBus done (Saga.bus s) = Some b1 →
  Cqrs.execute (Saga.execute sk) commandBus b1 = (b2, Rejected e) →
  ∃ s' r,
    Saga.UserCreationSaga.run this commandBus s = (s', r)
    ∧ Saga.ConsoleError Walk.saga_failed_text e ∈ Saga.events s'
    ∧ match Walk.compensations commandBus (reverse done) b2 with
      | Some b3 => r = Resolved tt ∧ Saga.bus s' = b3
      | None =>
          ∃ c e', r = Rejected e'
                  ∧ last (Saga.events s')
                    = Some (Saga.Dispatch Saga.Compensation c (Rejected e'))
      end.
Proof.
  intros Hthese Hf Hk. rewrite (run_compensates _ _ _ _ _ _ _ _ _ Hthese Hf Hk).
  match goal with
  | |- context [Saga.UserCreationSaga.compensation_loop ?cb ?th ?s3] =>
      destruct (compensation_loop_shape cb th s3)
        as (s' & r & -> & _ & Hcases)
  end.
  simpl in Hcases. exists s', r. split; [done|].
  destruct Hcases as [(-> & Hev & Hc)|(pre & c & post & e' & Hl & Hev & -> & Hc)];
    rewrite Hev, Hc.
  - split; [set_solver|done].
  - split; [set_solver|]. exists c, e'. split; [done|].
    by rewrite !app_assoc, last_snoc.
Qed.

(** The theorem at the three-step saga when Ship fails and the other
    handlers complete: the run resolves. *)
Lemma run_outcome_after_forward_failure_witness :
  ∃ s', Saga.UserCreationSaga.run Fixtures.built_saga
          (Fixtures.bus_failing ["SHIP"]) Fixtures.built_state
        = (s', Resolved tt)
    ∧ Saga.ConsoleError Walk.saga_failed_text (mkError "boom SHIP")
      ∈ Saga.events s'.
Proof.
  destruct (run_outcome_after_forward_failure Fixtures.built_saga
              (Fixtures.bus_failing ["SHIP"]) Fixtures.built_state
              [Fixtures.step_create; Fixtures.step_charge] Fixtures.step_ship []
              {| Cqrs.world := ["CREATE_USER"; "CHARGE"];
                 Cqrs.invoked := [(Fixtures.completing, Fixtures.Create);
                                  (Fixtures.completing, Fixtures.Charge)] |}
              {| Cqrs.world := ["CREATE_USER"; "CHARGE"; "SHIP"];
                 Cqrs.invoked := [(Fixtures.completing, Fixtures.Create);
                                  (Fixtures.completing, Fixtures.Charge);
                                  (Fixtures.throwing "boom SHIP", Fixtures.Ship)] |}
              (mkError "boom SHIP"))
    as (s' & r & Hrun & Hlog & Hr).
  - vm_compute. reflexivity.
  - vm_compute. reflexivity.
  - vm_compute. reflexivity.
  - vm_compute in Hr. destruct Hr as [-> _].
    exists s'. split; [exact Hrun|exact Hlog].
Defined.

(** C1, against the claim.  In the scenario of the specification, Ship
    fails after Create and Charge succeeded; both compensations succeed,
    and [run] resolves: its result is the result of the run in which
    nothing failed. *)
Lemma run_resolves_after_forward_failure :
  let failed := Fixtures.scenario (Fixtures.bus_failing ["SHIP"]) in
  let clean := Fixtures.scenario (Fixtures.bus_failing []) in
  Saga.events failed.1
  = [Saga.Dispatch Saga.Forward Fixtures.Create (Resolved tt);
     Saga.Dispatch Saga.Forward Fixtures.Charge (Resolved tt);
     Saga.Dispatch Saga.Forward Fixtures.Ship (Rejected (mkError "boom SHIP"));
     Saga.ConsoleError Walk.saga_failed_text (mkError "boom SHIP");
     Saga.Dispatch Saga.Compensation Fixtures.Refund (Resolved tt);
     Saga.Dispatch Saga.Compensation Fixtures.RollbackCreate (Resolved tt)]
  ∧ failed.2 = Resolved tt
  ∧ failed.2 = clean.2.
Proof.
  intros failed clean. repeat split; vm_compute; reflexivity.
Qed.

(** C7, as the code has it.  [addStep] appends the step to the sequence and
    resolves whenever it is called: before a run, and just the same on the
    state a run of this definition has left. *)
Theorem addStep_appends_whenever_called {World : Type}
    (this : Saga.UserCreationSaga.t) (s : Saga.State World)
    (these : list Saga.Step) (forward : Cqrs.Command)
    (compensate : option Cqrs.Command) :
  Saga.arrays s !! Saga.UserCreationSaga.steps this = Some these →
  Saga.UserCreationSaga.addStep this forward compensate s
  = (Saga.update (Saga.UserCreationSaga.steps this)
       (these ++ [Saga.mkStep forward compensate]) s, Resolved tt)
  ∧ ∀ commandBus : Cqrs.CommandBus World,
      let s1 := (Saga.UserCreationSaga.run this commandBus s).1 in
      Saga.UserCreationSaga.addStep this forward compensate s1
      = (Saga.update (Saga.UserCreationSaga.steps this)
           (these ++ [Saga.mkStep forward compensate]) s1, Resolved tt).
Proof.
  intros Hthese. unfold Saga.UserCreationSaga.addStep, Saga.push. split.
  - by rewrite (deref_lookup _ _ _ Hthese).
  - intros commandBus. cbv zeta.
    rewrite (deref_lookup _ these); [done|].
    rewrite run_frame; [exact Hthese|].
    intros Heq. by eapply fresh_not_allocated.
Qed.

(** The theorem at the three-step saga, before and after a run. *)
Lemma addStep_appends_whenever_called_witness :
  let s1 := (Saga.UserCreationSaga.run Fixtures.built_saga
               (Fixtures.bus_failing []) Fixtures.built_state).1 in
  Saga.UserCreationSaga.addStep Fixtures.built_saga Fixtures.Refund None s1
  = (Saga.update (Saga.UserCreationSaga.steps Fixtures.built_saga)
       ([Fixtures.step_create; Fixtures.step_charge; Fixtures.step_ship]
        ++ [Saga.mkStep Fixtures.Refund None]) s1, Resolved tt).
Proof.
  apply (addStep_appends_whenever_called Fixtures.built_saga
           Fixtures.built_state
           [Fixtures.step_create; Fixtures.step_charge; Fixtures.step_ship]).
  vm_compute. reflexivity.
Defined.

(** C7, against the claim.  After the three-step saga has run to its end,
    a further [addStep] does not fail: it resolves and the definition has a
    fourth step. *)
Lemma addStep_after_run_appends :
  Fixtures.add_after_run.2
  = Resolved [Fixtures.step_create; Fixtures.step_charge; Fixtures.step_ship;
              Saga.mkStep Fixtures.Refund None]
  ∧ ¬ ∃ e, Fixtures.add_after_run.2 = Rejected e.
Proof.
  assert (Fixtures.add_after_run.2
          = Resolved [Fixtures.step_create; Fixtures.step_charge;
                      Fixtures.step_ship; Saga.mkStep Fixtures.Refund None])
    as Hr by (vm_compute; reflexivity).
  split; [exact Hr|]. rewrite Hr. intros [e He]. discriminate He.
Qed.

(** * Further facts *)

(** ** Registration and routing *)

(** X1.  Registering a handler for one kind does not change how a command
    of another kind is executed. *)
Theorem register_leaves_other_kinds {World : Type}
    (this : Cqrs.CommandBus World) (k : string)
    (h : Cqrs.CommandHandler World) (c : Cqrs.Command)
    (s : Cqrs.BusState World) :
  k ≠ Cqrs.type c →
  Cqrs.execute c (Cqrs.register k h this) s = Cqrs.execute c this s.
Proof.
  intros Hne. unfold Cqrs.execute, Cqrs.register; simpl.
  by rewrite lookup_insert_ne.
Qed.

(** The theorem at the sample bus: a SHIP handler does not answer CHARGE. *)
Lemma register_leaves_other_kinds_witness :
  let s := {| Cqrs.world := ([] : Fixtures.Journal); Cqrs.invoked := [] |} in
  Cqrs.execute Fixtures.Charge
    (Cqrs.register "SHIP" Fixtures.completing Cqrs.newCommandBus) s
  = Cqrs.execute Fixtures.Charge Cqrs.newCommandBus s.
Proof.
  intros s. apply register_leaves_other_kinds. discriminate.
Defined.

(** X2.  The query bus routes by the query's type: after two registrations
    for one type a query of that type is answered by the second handler,
    with its answer and its effect on the world; a registration for another
    type changes nothing for the query; and on a bus without registrations
    every query is rejected with an error naming its type, the world
    untouched. *)
Theorem query_bus_routes_by_type {World R : Type}
    (this : Queries.QueryBus World R) (k : string)
    (h1 h2 : Queries.QueryHandler World R) :
  (∀ p w,
     Queries.execute (Queries.mkQuery k p)
       (Queries.register k h2 (Queries.register k h1 this)) w
     = Queries.handle h2 (Queries.mkQuery k p) w)
  ∧ (∀ q w,
       k ≠ Queries.type q →
       Queries.execute q (Queries.register k h2 this) w
       = Queries.execute q this w)
  ∧ (∀ q (w : World),
       Queries.execute q (Queries.newQueryBus (R:=R)) w
       = (w, Rejected (mkError ("No handler registered for "
                                +:+ Queries.type q)))).
Proof.
  split; [|split].
  - intros p w. unfold Queries.execute, Queries.register; simpl.
    by rewrite lookup_insert_eq.
  - intros q w Hne. unfold Queries.execute, Queries.register; simpl.
    by rewrite lookup_insert_ne.
  - intros q w. unfold Queries.execute, Queries.newQueryBus; simpl.
    by rewrite lookup_empty.
Qed.

(** ** The array-backed repository *)
Section ArrayRepositoryFacts.
Import Cqrs Cqrs.InMemoryUserRepository.

Lemma find_snoc (e : string) (l : list User) (v : User) :
  find (λ u, String.eqb (email u) e) (l ++ [v])
  = match find (λ u, String.eqb (email u) e) l with
    | Some u => Some u
    | None => if String.eqb (email v) e then Some v else None
    end.
Proof.
  induction l as [|x l IH]; simpl; [done|].
  by destruct (String.eqb (email x) e).
Qed.
End ArrayRepositoryFacts.

(** X3.  A user saved under an email that nobody in the store has is the
    one [findByEmail] returns for that email afterwards. *)
Theorem find_after_first_save (repo : Cqrs.InMemoryUserRepository.t)
    (v : Cqrs.User) :
  Cqrs.InMemoryUserRepository.findByEmail (Cqrs.email v) repo
    = Resolved None →
  Cqrs.InMemoryUserRepository.findByEmail (Cqrs.email v)
    (Cqrs.InMemoryUserRepository.save v repo).1
  = Resolved (Some v).
Proof.
  unfold Cqrs.InMemoryUserRepository.findByEmail; simpl. rewrite find_snoc.
  destruct (find _ (Cqrs.InMemoryUserRepository.users repo)); simpl; [done|].
  intros _. by rewrite String.eqb_refl.
Qed.

(** The theorem at the empty store and John Doe. *)
Lemma find_after_first_save_witness :
  Cqrs.InMemoryUserRepository.findByEmail "john@example.com"
    (Cqrs.InMemoryUserRepository.save
       (Cqrs.mkUser "John Doe" "john@example.com")
       Cqrs.InMemoryUserRepository.new).1
  = Resolved (Some (Cqrs.mkUser "John Doe" "john@example.com")).
Proof.
  apply (find_after_first_save Cqrs.InMemoryUserRepository.new
           (Cqrs.mkUser "John Doe" "john@example.com")).
  reflexivity.
Defined.

(** X4.  [save] changes the answer of [findByEmail] for an email only when
    the email had no user and the saved user has it: an email that already
    has a user keeps that user whatever is saved later, and saving a user
    with another email changes nothing for this one. *)
Theorem save_keeps_earlier_answers (repo : Cqrs.InMemoryUserRepository.t)
    (v : Cqrs.User) (e : string) :
  Cqrs.InMemoryUserRepository.findByEmail e repo ≠ Resolved None
  ∨ Cqrs.email v ≠ e →
  Cqrs.InMemoryUserRepository.findByEmail e
    (Cqrs.InMemoryUserRepository.save v repo).1
  = Cqrs.InMemoryUserRepository.findByEmail e repo.
Proof.
  unfold Cqrs.InMemoryUserRepository.findByEmail; simpl. rewrite find_snoc.
  destruct (find _ (Cqrs.InMemoryUserRepository.users repo)); simpl; [done|].
  intros [Hsome|Hne]; [done|].
  by destruct (String.eqb_spec (Cqrs.email v) e).
Qed.

(** The theorem at a store that has John: a second user with John's email
    does not replace him. *)
Lemma save_keeps_earlier_answers_witness :
  let john := Cqrs.mkUser "John Doe" "john@example.com" in
  let repo := Cqrs.InMemoryUserRepository.mk [john] in
  Cqrs.InMemoryUserRepository.findByEmail "john@example.com"
    (Cqrs.InMemoryUserRepository.save
       (Cqrs.mkUser "Johnny" "john@example.com") repo).1
  = Cqrs.InMemoryUserRepository.findByEmail "john@example.com" repo.
Proof.
  intros john repo. apply save_keeps_earlier_answers. left. discriminate.
Defined.

(** X5.  The application of the bus slice: on the command bus with a
    [CreateUserHandler] under CREATE_USER and the query bus with a
    [GetUserByEmailHandler] under GET_USER_BY_EMAIL, both on one repository,
    executing [CreateUserCommand(name, email)] resolves, calls the handler
    once and appends the user; the query for that email then resolves to
    the earliest user stored with the email, which is the new user when the
    email was not stored before; the query leaves the repository as it
    is. *)
Theorem create_then_query
    (h : Cqrs.CommandHandler Cqrs.InMemoryUserRepository.t)
    (q : Queries.QueryHandler Cqrs.InMemoryUserRepository.t
           (option Cqrs.User))
    (n e : string) (s : Cqrs.BusState Cqrs.InMemoryUserRepository.t) :
  CqrsHandlers.is_CreateUserHandler h →
  CqrsHandlers.is_GetUserByEmailHandler q →
  ∃ s1,
    Cqrs.execute (Cqrs.CreateUserCommand n e) (CqrsHandlers.commandBus h) s
    = (s1, Resolved tt)
    ∧ Cqrs.InMemoryUserRepository.users (Cqrs.world s1)
      = Cqrs.InMemoryUserRepository.users (Cqrs.world s) ++ [Cqrs.mkUser n e]
    ∧ Cqrs.invoked s1 = Cqrs.invoked s ++ [(h, Cqrs.CreateUserCommand n e)]
    ∧ Queries.execute (Queries.GetUserByEmailQuery e)
        (CqrsHandlers.queryBus q) (Cqrs.world s1)
      = (Cqrs.world s1,
         Resolved (Some (default (Cqrs.mkUser n e)
                           (find (λ u, String.eqb (Cqrs.email u) e)
                              (Cqrs.InMemoryUserRepository.users
                                 (Cqrs.world s)))))).
Proof.
  intros Hh Hq. eexists. split.
  - apply execute_registered with (h := h); [apply register_lookup|].
    rewrite Hh. reflexivity.
  - simpl. split; [done|]. split; [done|].
    unfold Queries.execute, CqrsHandlers.queryBus, Queries.register; simpl.
    rewrite lookup_insert_eq, Hq.
    unfold CqrsHandlers.GetUserByEmailHandler.handle,
      Cqrs.InMemoryUserRepository.findByEmail; simpl.
    rewrite find_snoc.
    destruct (find _ (Cqrs.InMemoryUserRepository.users (Cqrs.world s)));
      simpl; [done|].
    by rewrite String.eqb_refl.
Qed.

(** The theorem at the example of the source: John Doe on an empty
    repository. *)
Lemma create_then_query_witness :
  let s := {| Cqrs.world := Cqrs.InMemoryUserRepository.new;
              Cqrs.invoked := [] |} in
  ∃ s1,
    Cqrs.execute (Cqrs.CreateUserCommand "John Doe" "john@example.com")
      (CqrsHandlers.commandBus Support.createUserHandler) s
    = (s1, Resolved tt)
    ∧ Queries.execute (Queries.GetUserByEmailQuery "john@example.com")
        (CqrsHandlers.queryBus Support.getUserByEmailHandler) (Cqrs.world s1)
      = (Cqrs.world s1,
         Resolved (Some (Cqrs.mkUser "John Doe" "john@example.com"))).
Proof.
  intros s.
  destruct (create_then_query Support.createUserHandler
              Support.getUserByEmailHandler "John Doe" "john@example.com" s)
    as (s1 & Hc & _ & _ & Hq).
  - intros name email repository. reflexivity.
  - intros email repository. reflexivity.
  - exists s1. split; [exact Hc|exact Hq].
Defined.

(** ** The handlers of the saga slice *)

(** X6.  [RollbackUserCreationHandler] given the email a user was created
    with removes whatever is stored under that email: after the two
    handlers the map is the earlier map without that key.  So the creation
    is undone exactly when the email was not stored before; a user stored
    there before is lost, not restored.  Both handlers resolve, and each
    prints its line. *)
Theorem rollback_by_email_removes_the_entry (n e : string)
    (w : SagaHandlers.World) :
  let created := SagaHandlers.CreateUserHandler.handle n e w in
  let rolled := SagaHandlers.RollbackUserCreationHandler.handle e created.1 in
  created.2 = Resolved tt
  ∧ rolled.2 = Resolved tt
  ∧ SagaHandlers.InMemoryUserRepository.users
      (SagaHandlers.repository rolled.1)
    = delete e (SagaHandlers.InMemoryUserRepository.users
                  (SagaHandlers.repository w))
  ∧ SagaHandlers.console rolled.1
    = SagaHandlers.console w
      ++ ["Creating user: " +:+ n +:+ ", " +:+ e;
          "Rolling back user creation for ID: " +:+ e]
  ∧ (SagaHandlers.InMemoryUserRepository.users (SagaHandlers.repository w)
       !! e = None →
     SagaHandlers.repository rolled.1 = SagaHandlers.repository w).
Proof.
  intros created rolled. split; [done|]. split; [done|].
  assert (SagaHandlers.InMemoryUserRepository.users
            (SagaHandlers.repository rolled.1)
          = delete e (SagaHandlers.InMemoryUserRepository.users
                        (SagaHandlers.repository w))) as Hu.
  { simpl. apply delete_insert_eq. }
  split; [exact Hu|]. split.
  - simpl. by rewrite <- app_assoc.
  - intros Hnone.
    destruct (SagaHandlers.repository rolled.1) as [m] eqn:Hr.
    destruct (SagaHandlers.repository w) as [m0] eqn:Hw.
    simpl in Hu, Hnone. rewrite Hu. f_equal. by apply delete_id.
Qed.

(** The theorem at an empty repository: John is created and removed. *)
Lemma rollback_by_email_removes_the_entry_witness :
  let w := {| SagaHandlers.repository := SagaHandlers.InMemoryUserRepository.new;
              SagaHandlers.console := [] |} in
  SagaHandlers.repository
    (SagaHandlers.RollbackUserCreationHandler.handle "john@example.com"
       (SagaHandlers.CreateUserHandler.handle "John Doe" "john@example.com"
          w).1).1
  = SagaHandlers.repository w.
Proof.
  intros w.
  destruct (rollback_by_email_removes_the_entry "John Doe" "john@example.com" w)
    as (_ & _ & _ & _ & Hback).
  apply Hback. apply lookup_empty.
Defined.

(** X7.  [RollbackUserCreationHandler] given an id that is not the email
    the user was created with leaves the created user in the repository:
    the repository is keyed by email and the rollback deletes by id. *)
Theorem rollback_by_other_id_keeps_user (n e userId : string)
    (w : SagaHandlers.World) :
  userId ≠ e →
  SagaHandlers.InMemoryUserRepository.users
    (SagaHandlers.repository
       (SagaHandlers.RollbackUserCreationHandler.handle userId
          (SagaHandlers.CreateUserHandler.handle n e w).1).1)
    !! e = Some (Cqrs.mkUser n e).
Proof.
  intros Hne. simpl. rewrite lookup_delete_ne by done.
  apply lookup_insert_eq.
Qed.

(** The theorem at the example of the source, where the rollback command
    carries the id user123 and the user's email is john@example.com. *)
Lemma rollback_by_other_id_keeps_user_witness :
  let w := {| SagaHandlers.repository := SagaHandlers.InMemoryUserRepository.new;
              SagaHandlers.console := [] |} in
  SagaHandlers.InMemoryUserRepository.users
    (SagaHandlers.repository
       (SagaHandlers.RollbackUserCreationHandler.handle "user123"
          (SagaHandlers.CreateUserHandler.handle "John Doe"
             "john@example.com" w).1).1)
    !! "john@example.com"
  = Some (Cqrs.mkUser "John Doe" "john@example.com").
Proof.
  intros w. apply rollback_by_other_id_keeps_user. discriminate.
Defined.

(** ** Every run of a saga *)
Section RunFacts.
Import Cqrs Saga Saga.UserCreationSaga Walk.
Context {World : Type}.
Implicit Types (commandBus : CommandBus World) (s : State World)
  (b : BusState World) (these done later : list Step).

(** The forward actions either all succeed or there is a first one that is
    rejected. *)
Lemma forwards_or_first_rejection commandBus these : ∀ b,
  (∃ b', forwards commandBus these b = Some b')
  ∨ (∃ done sk later b1 b2 e,
       these = done ++ sk :: later
       ∧ forwards commandBus done b = Some b1
       ∧ Cqrs.execute (execute sk) commandBus b1 = (b2, Rejected e)).
Proof.
  induction these as [|step rest IH]; intros b; simpl.
  - left. by exists b.
  - destruct (Cqrs.execute (execute step) commandBus b)
      as [b0 [[]|e0]] eqn:He.
    + destruct (IH b0) as [[b' Hf]|(done & sk & later & b1 & b2 & e & -> & Hf & Hk)].
      * left. by exists b'.
      * right. exists (step :: done), sk, later, b1, b2, e.
        split; [done|]. split; [|done]. simpl. by rewrite He.
    + right. by exists [], step, rest, b, b0, e0.
Qed.

(** The two ways a run can go. *)
Lemma run_cases (this : UserCreationSaga.t) commandBus s these :
  arrays s !! steps this = Some these →
  (∃ b' s', forwards commandBus these (bus s) = Some b'
            ∧ run this commandBus s = (s', Resolved tt)
            ∧ bus s' = b'
            ∧ events s' = events s ++ forward_events these)
  ∨ (∃ done sk later b1 b2 e s' r attempted,
       these = done ++ sk :: later
       ∧ forwards commandBus done (bus s) = Some b1
       ∧ Cqrs.execute (execute sk) commandBus b1 = (b2, Rejected e)
       ∧ run this commandBus s = (s', r)
       ∧ events s'
         = events s ++ forward_events done
           ++ [Dispatch Forward (execute sk) (Rejected e);
               ConsoleError saga_failed_text e]
           ++ attempted
       ∧ ((attempted = compensation_events (compensation_commands done)
           ∧ r = Resolved tt)
          ∨ (∃ pre c post e',
               compensation_commands done = pre ++ c :: post
               ∧ attempted = compensation_events pre
                             ++ [Dispatch Compensation c (Rejected e')]
               ∧ r = Rejected e'))).
Proof.
  intros Hthese.
  destruct (forwards_or_first_rejection commandBus these (bus s))
    as [[b' Hf]|(done & sk & later & b1 & b2 & e & -> & Hf & Hk)].
  - left. exists b'. eexists. split; [done|].
    split; [by apply run_succeeds|done].
  - right. exists done, sk, later, b1, b2, e.
    rewrite (run_compensates _ _ _ _ _ _ _ _ _ Hthese Hf Hk).
    match goal with
    | |- context [compensation_loop ?cb ?th ?s3] =>
        destruct (compensation_loop_shape cb th s3)
          as (s' & r & -> & _ & Hcases)
    end.
    simpl in Hcases. exists s', r.
    destruct Hcases as [(-> & Hev & _)|(pre & c & post & e' & Hl & Hev & -> & _)].
    + eexists. split; [done|]. split; [done|]. split; [done|]. split; [done|].
      split; [by rewrite Hev, <- !app_assoc|]. by left.
    + eexists. split; [done|]. split; [done|]. split; [done|]. split; [done|].
      split; [by rewrite Hev, <- !app_assoc|]. right. by exists pre, c, post, e'.
Qed.

(** The outcome of the loops and the bus state they leave depend on the bus
    state they start from only. *)
Lemma compensation_loop_bus_only commandBus these : ∀ s1 s2,
  bus s1 = bus s2 →
  (compensation_loop commandBus these s1).2
  = (compensation_loop commandBus these s2).2
  ∧ bus (compensation_loop commandBus these s1).1
    = bus (compensation_loop commandBus these s2).1.
Proof.
  induction these as [|step rest IH]; intros s1 s2 Hb; simpl;
    [by split|].
  unfold bind. destruct (compensate step) as [c|]; simpl.
  - unfold dispatch. rewrite Hb.
    destruct (Cqrs.execute c commandBus (bus s2)) as [b1 [[]|e]]; [|done].
    by apply IH.
  - by apply IH.
Qed.
End RunFacts.

(** X8.  What a run dispatches, whatever the handlers do.  The forward
    actions of a prefix [done] of the definition are dispatched in order and
    succeed.  Either that is the whole definition, nothing else happens and
    [run] resolves; or the next forward action is dispatched and rejected,
    the error is printed once, and the compensation dispatches that follow
    are an initial part of the compensating actions of [done] taken
    backwards.  No forward action after a rejected one is dispatched and no
    forward dispatch follows a compensation. *)
Theorem run_events_shape {World : Type} (this : Saga.UserCreationSaga.t)
    (commandBus : Cqrs.CommandBus World) (s : Saga.State World)
    (these : list Saga.Step) :
  Saga.arrays s !! Saga.UserCreationSaga.steps this = Some these →
  ∃ s' r done rest,
    Saga.UserCreationSaga.run this commandBus s = (s', r)
    ∧ these = done ++ rest
    ∧ ((rest = [] ∧ r = Resolved tt
        ∧ Saga.events s' = Saga.events s ++ Walk.forward_events done)
       ∨ (∃ sk later e attempted,
            rest = sk :: later
            ∧ Saga.events s'
              = Saga.events s ++ Walk.forward_events done
                ++ [Saga.Dispatch Saga.Forward (Saga.execute sk) (Rejected e);
                    Saga.ConsoleError Walk.saga_failed_text e]
                ++ attempted
            ∧ Forall (λ ev, ∃ c o, ev = Saga.Dispatch Saga.Compensation c o)
                attempted
            ∧ Walk.compensation_dispatches attempted
              `prefix_of` Walk.compensation_commands done)).
Proof.
  intros Hthese.
  destruct (run_cases this commandBus s these Hthese)
    as [(b' & s' & _ & Hrun & _ & Hev)
       |(done & sk & later & b1 & b2 & e & s' & r & attempted
         & -> & _ & _ & Hrun & Hev & Hcases)].
  - exists s', (Resolved tt), these, []. split; [done|].
    split; [by rewrite app_nil_r|]. by left.
  - exists s', r, done, (sk :: later). split; [done|]. split; [done|].
    right. exists sk, later, e, attempted. split; [done|]. split; [done|].
    destruct Hcases as [[-> _]|(pre & c & post & e' & Hl & -> & _)].
    + split.
      * apply Forall_forall. intros ev Hin.
        apply list_elem_of_fmap in Hin as (c & -> & _). by eexists _, _.
      * by rewrite compensation_dispatches_events.
    + split.
      * apply Forall_app. split.
        -- apply Forall_forall. intros ev Hin.
           apply list_elem_of_fmap in Hin as (c0 & -> & _). by eexists _, _.
        -- apply Forall_singleton. by eexists _, _.
      * rewrite compensation_dispatches_app, compensation_dispatches_events.
        simpl. rewrite Hl. exists post. by rewrite <- app_assoc.
Qed.

(** The theorem at the three-step saga when Ship fails and the Refund
    handler throws. *)
Lemma run_events_shape_witness :
  ∃ s' r done rest,
    Saga.UserCreationSaga.run Fixtures.built_saga
      (Fixtures.bus_failing ["SHIP"; "REFUND"]) Fixtures.built_state = (s', r)
    ∧ [Fixtures.step_create; Fixtures.step_charge; Fixtures.step_ship]
      = done ++ rest.
Proof.
  destruct (run_events_shape Fixtures.built_saga
              (Fixtures.bus_failing ["SHIP"; "REFUND"]) Fixtures.built_state
              [Fixtures.step_create; Fixtures.step_charge; Fixtures.step_ship])
    as (s' & r & done & rest & Hrun & Hsplit & _).
  - vm_compute. reflexivity.
  - exists s', r, done, rest. split; [exact Hrun|exact Hsplit].
Defined.

(** X9.  [run] is never rejected with the error of a forward action: when
    it is rejected, a forward failure was printed before, and the last
    thing the run did is a compensation dispatch rejected with the very
    error [run] is rejected with. *)
Theorem run_rejects_only_from_compensation {World : Type}
    (this : Saga.UserCreationSaga.t) (commandBus : Cqrs.CommandBus World)
    (s s' : Saga.State World) (these : list Saga.Step) (e' : Error) :
  Saga.arrays s !! Saga.UserCreationSaga.steps this = Some these →
  Saga.UserCreationSaga.run this commandBus s = (s', Rejected e') →
  (∃ c, last (Saga.events s')
        = Some (Saga.Dispatch Saga.Compensation c (Rejected e')))
  ∧ (∃ e, Saga.ConsoleError Walk.saga_failed_text e ∈ Saga.events s').
Proof.
  intros Hthese Hrun.
  destruct (run_cases this commandBus s these Hthese)
    as [(b' & s1 & _ & Hrun1 & _ & _)
       |(completed & sk & later & b1 & b2 & e & s1 & r & attempted
         & _ & _ & _ & Hrun1 & Hev & Hcases)];
    rewrite Hrun in Hrun1; [discriminate Hrun1|].
  injection Hrun1 as <- <-.
  destruct Hcases as [[_ [=]]|(pre & c & post & e1 & _ & -> & [= <-])].
  split.
  - exists c. by rewrite Hev, !app_assoc, last_snoc.
  - exists e. rewrite Hev. set_solver.
Qed.

(** The theorem at the three-step saga when Ship fails and the Refund
    handler throws: the run is rejected with Refund's error. *)
Lemma run_rejects_only_from_compensation_witness :
  ∃ c, last (Saga.events
               (Saga.UserCreationSaga.run Fixtures.built_saga
                  (Fixtures.bus_failing ["SHIP"; "REFUND"])
                  Fixtures.built_state).1)
       = Some (Saga.Dispatch Saga.Compensation c
                 (Rejected (mkError "boom REFUND"))).
Proof.
  apply (run_rejects_only_from_compensation Fixtures.built_saga
           (Fixtures.bus_failing ["SHIP"; "REFUND"]) Fixtures.built_state
           _ [Fixtures.step_create; Fixtures.step_charge; Fixtures.step_ship]).
  - vm_compute. reflexivity.
  - vm_compute. reflexivity.
Defined.

(** X10.  A saga of one step always resolves and never dispatches a
    compensation: if the forward action succeeds there is nothing to undo,
    and if it fails the step did not complete, so its compensating action
    is not dispatched; the failure is printed and [run] resolves. *)
Theorem one_step_saga_always_resolves {World : Type}
    (this : Saga.UserCreationSaga.t) (commandBus : Cqrs.CommandBus World)
    (s : Saga.State World) (step : Saga.Step) :
  Saga.arrays s !! Saga.UserCreationSaga.steps this = Some [step] →
  ∃ s' o,
    Saga.UserCreationSaga.run this commandBus s = (s', Resolved tt)
    ∧ (Cqrs.execute (Saga.execute step) commandBus (Saga.bus s)).2 = o
    ∧ Saga.bus s'
      = (Cqrs.execute (Saga.execute step) commandBus (Saga.bus s)).1
    ∧ Saga.events s'
      = Saga.events s
        ++ Saga.Dispatch Saga.Forward (Saga.execute step) o
           :: match o with
              | Resolved _ => []
              | Rejected e => [Saga.ConsoleError Walk.saga_failed_text e]
              end
    ∧ Walk.compensation_dispatches (Saga.events s')
      = Walk.compensation_dispatches (Saga.events s).
Proof.
  intros Hthese.
  destruct (Cqrs.execute (Saga.execute step) commandBus (Saga.bus s))
    as [b [[]|e]] eqn:He.
  - eexists _, (Resolved tt). split.
    + apply run_succeeds with (these := [step]); [exact Hthese|].
      simpl. by rewrite He.
    + simpl. split; [done|]. split; [done|]. split; [done|].
      by rewrite compensation_dispatches_app, app_nil_r.
  - eexists _, (Rejected e). split.
    + rewrite (run_compensates this commandBus s [] step [] (Saga.bus s) b e);
        [|exact Hthese|done|exact He].
      reflexivity.
    + simpl. split; [done|]. split; [done|]. split; [done|].
      by rewrite compensation_dispatches_app, app_nil_r.
Qed.

(** The theorem at the saga of the source's example, one step with a
    rollback, on a bus whose CREATE_USER handler throws. *)
Lemma one_step_saga_always_resolves_witness :
  let s := Saga.update 1%positive [Fixtures.step_create] Fixtures.initial in
  ∃ s',
    Saga.UserCreationSaga.run (Saga.UserCreationSaga.mk 1%positive)
      (Fixtures.bus_failing ["CREATE_USER"]) s = (s', Resolved tt)
    ∧ Walk.compensation_dispatches (Saga.events s') = [].
Proof.
  intros s.
  destruct (one_step_saga_always_resolves (Saga.UserCreationSaga.mk 1%positive)
              (Fixtures.bus_failing ["CREATE_USER"]) s Fixtures.step_create)
    as (s' & o & Hrun & _ & _ & _ & Hcomp).
  - vm_compute. reflexivity.
  - exists s'. split; [exact Hrun|exact Hcomp].
Defined.

(** X11.  A run keeps nothing from one run to the next: how [run] settles
    and the state it leaves the handlers in depend on the steps of the
    definition and on the state of the handlers at the start only, not on
    the arrays earlier runs left behind, not on what was logged before, and
    not on which saga object holds the steps. *)
Theorem run_depends_on_steps_and_handlers_only {World : Type}
    (this1 this2 : Saga.UserCreationSaga.t)
    (commandBus : Cqrs.CommandBus World) (s1 s2 : Saga.State World)
    (these : list Saga.Step) :
  Saga.arrays s1 !! Saga.UserCreationSaga.steps this1 = Some these →
  Saga.arrays s2 !! Saga.UserCreationSaga.steps this2 = Some these →
  Saga.bus s1 = Saga.bus s2 →
  (Saga.UserCreationSaga.run this1 commandBus s1).2
  = (Saga.UserCreationSaga.run this2 commandBus s2).2
  ∧ Saga.bus (Saga.UserCreationSaga.run this1 commandBus s1).1
    = Saga.bus (Saga.UserCreationSaga.run this2 commandBus s2).1.
Proof.
  intros H1 H2 Hb.
  destruct (forwards_or_first_rejection commandBus these (Saga.bus s1))
    as [[b' Hf]|(completed & sk & later & b1 & b2 & e & -> & Hf & Hk)].
  - rewrite (run_succeeds this1 commandBus s1 these b' H1 Hf).
    rewrite Hb in Hf.
    by rewrite (run_succeeds this2 commandBus s2 these b' H2 Hf).
  - rewrite (run_compensates _ _ _ _ _ _ _ _ _ H1 Hf Hk).
    rewrite Hb in Hf.
    rewrite (run_compensates _ _ _ _ _ _ _ _ _ H2 Hf Hk).
    by apply compensation_loop_bus_only.
Qed.

(** The theorem at the three-step saga: a second run from the same handler
    state, started after a first run has left its array and its events
    behind, settles as the first. *)
Lemma run_depends_on_steps_and_handlers_only_witness :
  let commandBus := Fixtures.bus_failing ["SHIP"; "REFUND"] in
  let s1 := Fixtures.built_state in
  let after := (Saga.UserCreationSaga.run Fixtures.built_saga commandBus s1).1 in
  let s2 := {| Saga.bus := Saga.bus s1; Saga.arrays := Saga.arrays after;
               Saga.events := Saga.events after |} in
  (Saga.UserCreationSaga.run Fixtures.built_saga commandBus s1).2
  = (Saga.UserCreationSaga.run Fixtures.built_saga commandBus s2).2.
Proof.
  intros commandBus s1 after s2.
  apply (run_depends_on_steps_and_handlers_only Fixtures.built_saga
           Fixtures.built_saga commandBus s1 s2
           [Fixtures.step_create; Fixtures.step_charge; Fixtures.step_ship]).
  - vm_compute. reflexivity.
  - vm_compute. reflexivity.
  - reflexivity.
Defined.

(** ** Building a definition *)
Section BuildFacts.
Import Cqrs Saga Saga.UserCreationSaga.
Context {World : Type}.

Lemma add_all_appends (this : UserCreationSaga.t) (these : list Step) :
  ∀ (s : State World) old,
    arrays s !! steps this = Some old →
    Support.add_all this these s
    = ({| bus := bus s; arrays := <[steps this := old ++ these]> (arrays s);
          events := events s |}, Resolved tt).
Proof.
  induction these as [|step rest IH]; intros s old Hold; simpl.
  - unfold ret. destruct s; simpl in *. by rewrite app_nil_r, insert_id.
  - unfold bind at 1, addStep, push.
    erewrite IH; [|apply lookup_insert_eq].
    simpl. rewrite (deref_lookup _ _ _ Hold), insert_insert_eq.
    destruct step. by rewrite <- app_assoc.
Qed.
End BuildFacts.

(** X12.  A saga made by [new UserCreationSaga()] and any number of
    [addStep] calls holds exactly the steps that were added, in the order
    of the calls; building it calls no handler and logs nothing. *)
Theorem steps_are_kept_in_call_order {World : Type}
    (these : list Saga.Step) (s : Saga.State World) :
  ∃ s' saga,
    Saga.bind Saga.UserCreationSaga.new
      (λ saga, Saga.bind (Support.add_all saga these) (λ _, Saga.ret saga)) s
    = (s', Resolved saga)
    ∧ Saga.arrays s' !! Saga.UserCreationSaga.steps saga = Some these
    ∧ Saga.bus s' = Saga.bus s
    ∧ Saga.events s' = Saga.events s.
Proof.
  unfold Saga.bind at 1, Saga.UserCreationSaga.new, Saga.bind at 1, Saga.alloc,
    Saga.ret at 1.
  unfold Saga.bind at 1.
  erewrite add_all_appends; [|apply lookup_insert_eq].
  unfold Saga.ret. eexists _, _. split; [done|]. simpl.
  split; [|done]. apply lookup_insert_eq.
Qed.

(** X13.  Two sagas never share their steps: a new saga starts empty at an
    array of its own, and an [addStep] on either saga leaves the steps of
    the other as they are. *)
Theorem new_saga_has_its_own_steps {World : Type}
    (other : Saga.UserCreationSaga.t) (s : Saga.State World)
    (these : list Saga.Step) (forward : Cqrs.Command)
    (compensate : option Cqrs.Command) :
  Saga.arrays s !! Saga.UserCreationSaga.steps other = Some these →
  ∃ s1 saga,
    Saga.UserCreationSaga.new s = (s1, Resolved saga)
    ∧ Saga.UserCreationSaga.steps saga ≠ Saga.UserCreationSaga.steps other
    ∧ Saga.arrays s1 !! Saga.UserCreationSaga.steps saga = Some []
    ∧ Saga.arrays s1 !! Saga.UserCreationSaga.steps other = Some these
    ∧ Saga.arrays
        (Saga.UserCreationSaga.addStep saga forward compensate s1).1
        !! Saga.UserCreationSaga.steps other = Some these
    ∧ Saga.arrays
        (Saga.UserCreationSaga.addStep other forward compensate s1).1
        !! Saga.UserCreationSaga.steps saga = Some [].
Proof.
  intros Hother.
  pose proof (fresh_not_allocated _ _ _ Hother) as Hne.
  eexists _, _. split; [reflexivity|]. simpl.
  split; [done|]. split; [apply lookup_insert_eq|].
  split; [by rewrite lookup_insert_ne|].
  split.
  - by rewrite !lookup_insert_ne.
  - rewrite lookup_insert_ne by done. apply lookup_insert_eq.
Qed.

(** The theorem at the state that holds the three-step saga. *)
Lemma new_saga_has_its_own_steps_witness :
  ∃ s1 saga,
    Saga.UserCreationSaga.new Fixtures.built_state = (s1, Resolved saga)
    ∧ Saga.arrays
        (Saga.UserCreationSaga.addStep saga Fixtures.Refund None s1).1
        !! Saga.UserCreationSaga.steps Fixtures.built_saga
      = Some [Fixtures.step_create; Fixtures.step_charge; Fixtures.step_ship].
Proof.
  destruct (new_saga_has_its_own_steps Fixtures.built_saga Fixtures.built_state
              [Fixtures.step_create; Fixtures.step_charge; Fixtures.step_ship]
              Fixtures.Refund None)
    as (s1 & saga & Hnew & _ & _ & _ & Hkeep & _).
  - vm_compute. reflexivity.
  - exists s1, saga. split; [exact Hnew|exact Hkeep].
Defined.

(** ** The mediator and its repository *)

(** X14.  [UserMediator] ignores every event but UserCreated and
    UserDeleted: it prints nothing, sends nothing and resolves. *)
Theorem notify_ignores_other_events (sender : Mediator.User)
    (event : string) (c : Mediator.Console) :
  event ≠ "UserCreated" →
  event ≠ "UserDeleted" →
  Mediator.notify Mediator.UserMediator sender event c = (c, Resolved tt).
Proof.
  intros Hc Hd. simpl.
  destruct (String.eqb_spec event "UserCreated"); [done|].
  by destruct (String.eqb_spec event "UserDeleted").
Qed.

(** The theorem at an event the mediator does not know. *)
Lemma notify_ignores_other_events_witness :
  Mediator.notify Mediator.UserMediator
    (Mediator.mkUser "Jane Doe" "jane@example.com") "UserRenamed" []
  = ([], Resolved tt).
Proof.
  apply notify_ignores_other_events; discriminate.
Defined.

(** X15.  Saving a user whose email is not stored and then deleting by that
    email, with [UserMediator], brings the map back to what it was; both
    calls resolve, the mediator is notified of UserCreated and then of
    UserDeleted for that user, and the console shows the welcome email and
    then the closure email, both to the user's address. *)
Theorem save_then_delete_restores_map (u : Mediator.User)
    (s : Mediator.State Mediator.Console) :
  Mediator.users s !! Mediator.email u = None →
  (Mediator.UserRepository.save Mediator.UserMediator u s).2 = Resolved tt
  ∧ Mediator.UserRepository.deleteByEmail Mediator.UserMediator
      (Mediator.email u)
      (Mediator.UserRepository.save Mediator.UserMediator u s).1
    = ({| Mediator.users := Mediator.users s;
          Mediator.env :=
            Mediator.env s
            ++ ["Mediator handling UserCreated event.";
                "Sending welcome email to " +:+ Mediator.email u;
                "Mediator handling UserDeleted event.";
                "Sending account closure email to " +:+ Mediator.email u];
          Mediator.notified :=
            Mediator.notified s ++ [(u, "UserCreated"); (u, "UserDeleted")] |},
       Resolved tt).
Proof.
  intros Hnone. split; [done|].
  unfold Mediator.UserRepository.deleteByEmail,
    Mediator.UserRepository.save, Mediator.call_notify; simpl.
  rewrite lookup_insert_eq. simpl.
  rewrite delete_insert_eq, delete_id by done.
  by rewrite <- !app_assoc.
Qed.

(** The theorem at the example of mediator.ts: Jane Doe on an empty
    repository. *)
Lemma save_then_delete_restores_map_witness :
  let jane := Mediator.mkUser "Jane Doe" "jane@example.com" in
  let s := {| Mediator.users := ∅; Mediator.env := ([] : Mediator.Console);
              Mediator.notified := [] |} in
  Mediator.UserRepository.deleteByEmail Mediator.UserMediator
    "jane@example.com"
    (Mediator.UserRepository.save Mediator.UserMediator jane s).1
  = ({| Mediator.users := ∅;
        Mediator.env :=
          ["Mediator handling UserCreated event.";
           "Sending welcome email to jane@example.com";
           "Mediator handling UserDeleted event.";
           "Sending account closure email to jane@example.com"];
        Mediator.notified := [(jane, "UserCreated"); (jane, "UserDeleted")] |},
     Resolved tt).
Proof.
  intros jane s.
  destruct (save_then_delete_restores_map jane s) as [_ Hdel].
  - apply lookup_empty.
  - exact Hdel.
Defined.

(** X16.  Deleting by the same email a second time does nothing, whatever
    the mediator did the first time: the second call leaves the state of
    the first untouched, notifies nobody and resolves. *)
Theorem deleteByEmail_twice {Env : Type} (mediator : Mediator.Mediator Env)
    (e : string) (s : Mediator.State Env) :
  Mediator.UserRepository.deleteByEmail mediator e
    (Mediator.UserRepository.deleteByEmail mediator e s).1
  = ((Mediator.UserRepository.deleteByEmail mediator e s).1, Resolved tt).
Proof.
  unfold Mediator.UserRepository.deleteByEmail at 2 3.
  destruct (Mediator.users s !! e) as [user|] eqn:Hu.
  - unfold Mediator.call_notify; simpl.
    destruct (Mediator.notify mediator user "UserDeleted" (Mediator.env s))
      as [env' r]. simpl.
    unfold Mediator.UserRepository.deleteByEmail; simpl.
    by rewrite lookup_delete_eq.
  - simpl. unfold Mediator.UserRepository.deleteByEmail. by rewrite Hu.
Qed.

(** X17.  The map is changed before the mediator is told and is not put
    back when the mediator throws: after [save] the user is stored under
    its email and after [deleteByEmail] the email has no entry, however the
    calls settle; the other entries are untouched; and [save] settles as
    the mediator's [notify] does. *)
Theorem store_changes_survive_the_mediator {Env : Type}
    (mediator : Mediator.Mediator Env) (u : Mediator.User) (e : string)
    (s : Mediator.State Env) :
  Mediator.users (Mediator.UserRepository.save mediator u s).1
    = <[Mediator.email u := u]> (Mediator.users s)
  ∧ Mediator.users (Mediator.UserRepository.deleteByEmail mediator e s).1
    = delete e (Mediator.users s)
  ∧ (Mediator.UserRepository.save mediator u s).2
    = (Mediator.notify mediator u "UserCreated" (Mediator.env s)).2.
Proof.
  split; [|split].
  - unfold Mediator.UserRepository.save, Mediator.call_notify; simpl.
    by destruct (Mediator.notify mediator u "UserCreated" (Mediator.env s)).
  - unfold Mediator.UserRepository.deleteByEmail.
    destruct (Mediator.users s !! e) as [user|] eqn:Hu; simpl.
    + unfold Mediator.call_notify; simpl.
      by destruct (Mediator.notify mediator user "UserDeleted" (Mediator.env s)).
    + by rewrite delete_id.
  - unfold Mediator.UserRepository.save, Mediator.call_notify; simpl.
    by destruct (Mediator.notify mediator u "UserCreated" (Mediator.env s)).
Qed.

(** X18.  The repository keeps every user under its own email: if that
    holds of the map, it holds again after [save] and after
    [deleteByEmail], with any mediator and however the calls settle. *)
Theorem map_stays_keyed_by_email {Env : Type}
    (mediator : Mediator.Mediator Env) (u : Mediator.User) (e : string)
    (s : Mediator.State Env) :
  Support.keyed_by_email (Mediator.users s) →
  Support.keyed_by_email
    (Mediator.users (Mediator.UserRepository.save mediator u s).1)
  ∧ Support.keyed_by_email
      (Mediator.users (Mediator.UserRepository.deleteByEmail mediator e s).1).
Proof.
  intros Hkeyed.
  assert (Mediator.users (Mediator.UserRepository.save mediator u s).1
          = <[Mediator.email u := u]> (Mediator.users s)) as ->.
  { unfold Mediator.UserRepository.save, Mediator.call_notify; simpl.
    by destruct (Mediator.notify mediator u "UserCreated" (Mediator.env s)). }
  assert (Mediator.users (Mediator.UserRepository.deleteByEmail mediator e s).1
          = delete e (Mediator.users s)) as ->.
  { unfold Mediator.UserRepository.deleteByEmail.
    destruct (Mediator.users s !! e) as [user|] eqn:Hu; simpl.
    - unfold Mediator.call_notify; simpl.
      by destruct (Mediator.notify mediator user "UserDeleted" (Mediator.env s)).
    - by rewrite delete_id. }
  split; intros k v Hk.
  - destruct (decide (Mediator.email u = k)) as [<-|Hne].
    + rewrite lookup_insert_eq in Hk. by injection Hk as <-.
    + rewrite lookup_insert_ne in Hk by done. by apply Hkeyed.
  - destruct (decide (e = k)) as [<-|Hne].
    + by rewrite lookup_delete_eq in Hk.
    + rewrite lookup_delete_ne in Hk by done. by apply Hkeyed.
Qed.

(** The theorem at the empty repository, with a mediator that throws. *)
Lemma map_stays_keyed_by_email_witness :
  let s := {| Mediator.users := ∅; Mediator.env := tt;
              Mediator.notified := [] |} in
  Support.keyed_by_email
    (Mediator.users
       (Mediator.UserRepository.save Support.failing_mediator
          (Mediator.mkUser "Jane Doe" "jane@example.com") s).1).
Proof.
  intros s.
  destruct (map_stays_keyed_by_email Support.failing_mediator
              (Mediator.mkUser "Jane Doe" "jane@example.com")
              "jane@example.com" s) as [Hsave _].
  - intros k v Hk. simpl in Hk. by apply lookup_empty_Some in Hk.
  - exact Hsave.
Defined.

(** X19.  When every user is stored under its own email, deleting a stored
    email with [UserMediator] sends the closure email to the very address
    that was asked for: the entry is removed, the mediator is notified of
    UserDeleted for the stored user, and the console shows the two lines
    for that address. *)
Theorem closure_email_goes_to_deleted_address (e : string)
    (u : Mediator.User) (s : Mediator.State Mediator.Console) :
  Support.keyed_by_email (Mediator.users s) →
  Mediator.users s !! e = Some u →
  Mediator.UserRepository.deleteByEmail Mediator.UserMediator e s
  = ({| Mediator.users := delete e (Mediator.users s);
        Mediator.env :=
          Mediator.env s
          ++ ["Mediator handling UserDeleted event.";
              "Sending account closure email to " +:+ e];
        Mediator.notified := Mediator.notified s ++ [(u, "UserDeleted")] |},
     Resolved tt).
Proof.
  intros Hkeyed Hu.
  unfold Mediator.UserRepository.deleteByEmail. rewrite Hu.
  unfold Mediator.call_notify; simpl.
  rewrite (Hkeyed e u Hu). by rewrite <- app_assoc.
Qed.

(** The theorem at a repository that holds Jane. *)
Lemma closure_email_goes_to_deleted_address_witness :
  let jane := Mediator.mkUser "Jane Doe" "jane@example.com" in
  let s := {| Mediator.users := {["jane@example.com" := jane]};
              Mediator.env := ([] : Mediator.Console);
              Mediator.notified := [] |} in
  Mediator.UserRepository.deleteByEmail Mediator.UserMediator
    "jane@example.com" s
  = ({| Mediator.users := delete "jane@example.com" (Mediator.users s);
        Mediator.env :=
          ["Mediator handling UserDeleted event.";
           "Sending account closure email to jane@example.com"];
        Mediator.notified := [(jane, "UserDeleted")] |},
     Resolved tt).
Proof.
  intros jane s.
  apply (closure_email_goes_to_deleted_address "jane@example.com" jane s).
  - intros k v Hk. simpl in Hk.
    apply lookup_singleton_Some in Hk as [<- <-]. reflexivity.
  - apply lookup_singleton_eq.
Defined.

(** ** The repository and the application of the saga slice *)

(** X20.  The map-backed repository of the saga slice keeps one user per
    email, the last one saved: saving a second user with the same email
    gives the repository that saving the second alone gives, and the first
    is gone. *)
Theorem last_save_under_an_email_wins (u1 u2 : Cqrs.User)
    (repo : SagaHandlers.InMemoryUserRepository.t) :
  Cqrs.email u1 = Cqrs.email u2 →
  (SagaHandlers.InMemoryUserRepository.save u2
     (SagaHandlers.InMemoryUserRepository.save u1 repo).1).1
  = (SagaHandlers.InMemoryUserRepository.save u2 repo).1
  ∧ SagaHandlers.InMemoryUserRepository.users
      (SagaHandlers.InMemoryUserRepository.save u2
         (SagaHandlers.InMemoryUserRepository.save u1 repo).1).1
      !! Cqrs.email u1 = Some u2.
Proof.
  intros Heq. simpl. rewrite Heq. split.
  - f_equal. apply insert_insert_eq.
  - apply lookup_insert_eq.
Qed.

(** The theorem at two users with John's email. *)
Lemma last_save_under_an_email_wins_witness :
  SagaHandlers.InMemoryUserRepository.users
    (SagaHandlers.InMemoryUserRepository.save
       (Cqrs.mkUser "Johnny" "john@example.com")
       (SagaHandlers.InMemoryUserRepository.save
          (Cqrs.mkUser "John Doe" "john@example.com")
          SagaHandlers.InMemoryUserRepository.new).1).1
    !! "john@example.com"
  = Some (Cqrs.mkUser "Johnny" "john@example.com").
Proof.
  destruct (last_save_under_an_email_wins
              (Cqrs.mkUser "John Doe" "john@example.com")
              (Cqrs.mkUser "Johnny" "john@example.com")
              SagaHandlers.InMemoryUserRepository.new) as [_ Hlast].
  - reflexivity.
  - exact Hlast.
Defined.

(** X21.  The application of the saga slice: on the bus with a
    [CreateUserHandler] under CREATE_USER and any handler under
    ROLLBACK_USER_CREATION, the saga of one step (create the user, roll the
    creation back) resolves, the create handler is called once and has
    printed its line and stored the user, and the rollback handler is not
    called. *)
Theorem example_saga_stores_the_user
    (h r : Cqrs.CommandHandler SagaHandlers.World)
    (this : Saga.UserCreationSaga.t) (n e userId : string)
    (s : Saga.State SagaHandlers.World) :
  SagaHandlers.is_CreateUserHandler h →
  Saga.arrays s !! Saga.UserCreationSaga.steps this
    = Some [Saga.mkStep (Cqrs.CreateUserCommand n e)
              (Some (Saga.RollbackUserCreationCommand userId))] →
  ∃ s',
    Saga.UserCreationSaga.run this (SagaHandlers.commandBus h r) s
    = (s', Resolved tt)
    ∧ Cqrs.invoked (Saga.bus s')
      = Cqrs.invoked (Saga.bus s) ++ [(h, Cqrs.CreateUserCommand n e)]
    ∧ SagaHandlers.InMemoryUserRepository.users
        (SagaHandlers.repository (Cqrs.world (Saga.bus s')))
      = <[e := Cqrs.mkUser n e]>
          (SagaHandlers.InMemoryUserRepository.users
             (SagaHandlers.repository (Cqrs.world (Saga.bus s))))
    ∧ SagaHandlers.console (Cqrs.world (Saga.bus s'))
      = SagaHandlers.console (Cqrs.world (Saga.bus s))
        ++ ["Creating user: " +:+ n +:+ ", " +:+ e]
    ∧ Saga.events s'
      = Saga.events s
        ++ [Saga.Dispatch Saga.Forward (Cqrs.CreateUserCommand n e)
              (Resolved tt)].
Proof.
  intros Hh Hthese.
  assert (Cqrs.execute (Cqrs.CreateUserCommand n e)
            (SagaHandlers.commandBus h r) (Saga.bus s)
          = ({| Cqrs.world :=
                  (SagaHandlers.CreateUserHandler.handle n e
                     (Cqrs.world (Saga.bus s))).1;
                Cqrs.invoked :=
                  Cqrs.invoked (Saga.bus s)
                  ++ [(h, Cqrs.CreateUserCommand n e)] |}, Resolved tt))
    as Hexec.
  { apply execute_registered; [|by rewrite Hh].
    unfold SagaHandlers.commandBus, Cqrs.register; simpl.
    rewrite lookup_insert_ne by discriminate. apply lookup_insert_eq. }
  eexists. split.
  - eapply run_succeeds; [exact Hthese|]. simpl. rewrite Hexec. reflexivity.
  - simpl. done.
Qed.

(** The theorem at the example of the source: John Doe, rollback id
    user123, empty repository. *)
Lemma example_saga_stores_the_user_witness :
  let s := Saga.update 1%positive
             [Saga.mkStep (Cqrs.CreateUserCommand "John Doe" "john@example.com")
                (Some (Saga.RollbackUserCreationCommand "user123"))]
             {| Saga.bus :=
                  {| Cqrs.world :=
                       {| SagaHandlers.repository :=
                            SagaHandlers.InMemoryUserRepository.new;
                          SagaHandlers.console := [] |};
                     Cqrs.invoked := [] |};
                Saga.arrays := ∅; Saga.events := [] |} in
  ∃ s',
    Saga.UserCreationSaga.run (Saga.UserCreationSaga.mk 1%positive)
      (SagaHandlers.commandBus Support.sagaCreateUserHandler
         Support.sagaRollbackHandler) s
    = (s', Resolved tt)
    ∧ SagaHandlers.console (Cqrs.world (Saga.bus s'))
      = ["Creating user: John Doe, john@example.com"].
Proof.
  intros s.
  destruct (example_saga_stores_the_user Support.sagaCreateUserHandler
              Support.sagaRollbackHandler (Saga.UserCreationSaga.mk 1%positive)
              "John Doe" "john@example.com" "user123" s)
    as (s' & Hrun & _ & _ & Hconsole & _).
  - intros name email w. reflexivity.
  - vm_compute. reflexivity.
  - exists s'. split; [exact Hrun|exact Hconsole].
Defined.
